(** * tbv: the package verification pipeline of [src/verifier.ts]

    A shallow embedding of the [Verifier] class: the four phases
    [registry], [checkout], [pack], [compare] and their driver [verify],
    written in a small state-and-exception monad over an explicit world
    (progress table, fail flag, working directory, event trace) and an
    environment giving the answers of the external collaborators and the
    members of the built-in prototypes of the JavaScript engine. *)

From Stdlib Require Import String Ascii List Bool Arith Lia DecimalString.
Import ListNotations.
Open Scope list_scope.
Open Scope string_scope.

Set Warnings "-register-all".

(** ** JavaScript values

    The registry answer is typed [any] in the source, so it is modelled as
    an arbitrary parsed JSON value.  Strings are sequences of code units
    (one [ascii] per unit, so the model covers units below 256).  A number
    is identified by its rendering under [Number::toString]; the program
    only tests numbers for truthiness and prints them.  The list of an
    object is its table of own properties, as [JSON.parse] builds it.

    A read with a computed key can also find a member of a built-in
    prototype, such as the function [Object] under the key "constructor":
    [VNative] stands for such a built-in function or prototype object.
    The program only tests it for truthiness, reads metadata keys from it
    (it has none) and prints it, so it is identified by its rendering. *)

Inductive value : Type :=
| VUndefined
| VNull
| VBool (b : bool)
| VNum (repr : string)
| VStr (s : string)
| VArr (elems : list value)
| VObj (props : list (string * value))
| VNative (text : string).

(** [if (v)], [!v], [&&], [||]. *)
Definition truthy (v : value) : bool :=
  match v with
  | VUndefined | VNull => false
  | VBool b => b
  | VNum r => negb (r =? "0") && negb (r =? "NaN")
  | VStr s => negb (s =? "")
  | VArr _ | VObj _ | VNative _ => true
  end.

Definition nullish (v : value) : bool :=
  match v with
  | VUndefined | VNull => true
  | _ => false
  end.

Definition js_and (a b : value) : value := if truthy a then b else a.
Definition js_or (a b : value) : value := if truthy a then a else b.

Fixpoint assoc (k : string) (kvs : list (string * value)) : value :=
  match kvs with
  | [] => VUndefined
  | (k', v) :: rest => if k' =? k then v else assoc k rest
  end.

(** The own property [k] of an object, [undefined] when there is none.
    This is [v[k]] and [v.k] for the keys the source names ("dist-tags",
    "versions", "repository", "type", "url", "gitHead", "_shasum", "dist",
    "shasum") on every value [v] that is neither [null] nor [undefined]:
    none of these keys is an index, "length" or a member of a built-in
    prototype, so such a read finds an own property of an object or
    nothing.  The two reads with a computed key are [member] below. *)
Definition prop (v : value) (k : string) : value :=
  match v with
  | VObj kvs => assoc k kvs
  | _ => VUndefined
  end.

Definition has_key (k : string) (kvs : list (string * value)) : bool :=
  existsb (fun kv => fst kv =? k) kvs.

(** The array index a key denotes: a decimal numeral without sign and
    without leading zero. *)
Definition digit (c : ascii) : option nat :=
  let n := nat_of_ascii c in
  if ((48 <=? n) && (n <=? 57))%nat then Some (n - 48) else None.

Fixpoint digits (acc : nat) (s : string) : option nat :=
  match s with
  | EmptyString => Some acc
  | String c s' =>
      match digit c with
      | Some d => digits (10 * acc + d) s'
      | None => None
      end
  end.

Definition array_index (k : string) : option nat :=
  match k with
  | EmptyString => None
  | String c r => if Ascii.eqb c "0" && negb (r =? "") then None else digits 0 k
  end.

Definition decimal (n : nat) : string := NilZero.string_of_uint (Nat.to_uint n).

(** [o[k]] for a computed key [k] (already a string) on a value [o] that
    is neither [null] nor [undefined].  Own properties come first: the
    keys of an object, the indices and the length of an array and of a
    string.  Any other key is looked up on the prototype chain, which is
    the engine's: [inh o k] is what the read finds there, [undefined] when
    there is nothing.  The members of a built-in are the engine's too. *)
Definition member (inh : value -> string -> value) (o : value) (k : string) : value :=
  match o with
  | VObj kvs => if has_key k kvs then assoc k kvs else inh o k
  | VArr l =>
      if k =? "length" then VNum (decimal (List.length l))
      else match array_index k with
           | Some i => match nth_error l i with Some v => v | None => inh o k end
           | None => inh o k
           end
  | VStr s =>
      if k =? "length" then VNum (decimal (String.length s))
      else match array_index k with
           | Some i =>
               match String.get i s with
               | Some c => VStr (String c EmptyString)
               | None => inh o k
               end
           | None => inh o k
           end
  | _ => inh o k
  end.

Definition join_with (sep : string) : list string -> string :=
  fix go (l : list string) : string :=
    match l with
    | [] => ""
    | [x] => x
    | x :: rest => x ++ sep ++ go rest
    end.

(** Whether [v] can be converted to a string.  An object of a parsed
    document with an own key "toString" cannot: the value under that key
    is never callable, and [Object.prototype.valueOf] returns the object,
    so the conversion is a [TypeError].  An array is converted by joining
    the conversions of its elements. *)
Fixpoint renders (v : value) : bool :=
  match v with
  | VArr l => forallb renders l
  | VObj kvs => negb (has_key "toString" kvs)
  | _ => true
  end.

(** [String(v)], as used by template literals and by computed keys, for a
    value that [renders]. *)
Fixpoint toStr (v : value) : string :=
  match v with
  | VUndefined => "undefined"
  | VNull => "null"
  | VBool true => "true"
  | VBool false => "false"
  | VNum r => r
  | VStr s => s
  | VArr l =>
      join_with "," (map (fun e => if nullish e then "" else toStr e) l)
  | VObj _ => "[object Object]"
  | VNative text => text
  end.

(** [a === b].  Arrays and objects compare by reference; the two sides of
    a comparison in this program never alias (one side is a literal or the
    digest parsed from the pack output), so they are never equal. *)
Definition strict_eq (a b : value) : bool :=
  match a, b with
  | VUndefined, VUndefined => true
  | VNull, VNull => true
  | VBool x, VBool y => Bool.eqb x y
  | VNum x, VNum y => (x =? y) && negb (x =? "NaN")
  | VStr x, VStr y => x =? y
  | _, _ => false
  end.

Fixpoint string_drop (n : nat) (s : string) : string :=
  match n, s with
  | O, _ => s
  | S n', String _ s' => string_drop n' s'
  | S _, EmptyString => EmptyString
  end.

(** ** Progress table *)

Inductive Status := Pending | Working | Pass | Fail | Warn | Skipped.

Inductive StepId := Registry | Repo | GitHead | Checkout | Install | Pack | Compare.

Record Step := mkStep {
  status : Status;
  title : string;
  message : option string
}.

Record VerifyProgress := mkProgress {
  p_registry : Step;
  p_repo : Step;
  p_gitHead : Step;
  p_checkout : Step;
  p_install : Step;
  p_pack : Step;
  p_compare : Step
}.

Definition createProgress : VerifyProgress :=
  {| p_registry := mkStep Pending "Fetch package data from registry" None;
     p_repo := mkStep Pending "Version contains repository URL" None;
     p_gitHead := mkStep Pending "Version contains gitHead" None;
     p_checkout := mkStep Pending "Shallow checkout" None;
     p_install := mkStep Pending "Install npm packages" None;
     p_pack := mkStep Pending "Create package" None;
     p_compare := mkStep Pending "Compare shasums" None |}.

Definition step_of (p : VerifyProgress) (i : StepId) : Step :=
  match i with
  | Registry => p_registry p
  | Repo => p_repo p
  | GitHead => p_gitHead p
  | Checkout => p_checkout p
  | Install => p_install p
  | Pack => p_pack p
  | Compare => p_compare p
  end.

Definition set_step (p : VerifyProgress) (i : StepId) (s : Step) : VerifyProgress :=
  match i with
  | Registry => mkProgress s (p_repo p) (p_gitHead p) (p_checkout p) (p_install p) (p_pack p) (p_compare p)
  | Repo => mkProgress (p_registry p) s (p_gitHead p) (p_checkout p) (p_install p) (p_pack p) (p_compare p)
  | GitHead => mkProgress (p_registry p) (p_repo p) s (p_checkout p) (p_install p) (p_pack p) (p_compare p)
  | Checkout => mkProgress (p_registry p) (p_repo p) (p_gitHead p) s (p_install p) (p_pack p) (p_compare p)
  | Install => mkProgress (p_registry p) (p_repo p) (p_gitHead p) (p_checkout p) s (p_pack p) (p_compare p)
  | Pack => mkProgress (p_registry p) (p_repo p) (p_gitHead p) (p_checkout p) (p_install p) s (p_compare p)
  | Compare => mkProgress (p_registry p) (p_repo p) (p_gitHead p) (p_checkout p) (p_install p) (p_pack p) s
  end.

Definition status_of (p : VerifyProgress) (i : StepId) : Status := status (step_of p i).

(** Position of a step in the order registry, repo, gitHead, checkout,
    install, pack, compare. *)
Definition step_index (i : StepId) : nat :=
  match i with
  | Registry => 0 | Repo => 1 | GitHead => 2 | Checkout => 3
  | Install => 4 | Pack => 5 | Compare => 6
  end.

Definition all_steps : list StepId :=
  [Registry; Repo; GitHead; Checkout; Install; Pack; Compare].

(** ** World, environment and the monad of the pipeline *)

(** What the pipeline does to the outside, in order. *)
Inductive Event :=
| EGet (url : string)
| EExec (cmd : string)
| ECreateTemp
| EChdir (dir : string)
| EUpdate (id : StepId) (st : Status) (msg : option string).

(** A thrown JavaScript value, with its rendering under [String(err)]. *)
Inductive exn :=
| TypeError (msg : string)
| Rejected (msg : string).

Definition exn_toString (e : exn) : string :=
  match e with
  | TypeError m => "TypeError: " ++ m
  | Rejected m => m
  end.

(** The external collaborators.  Each answer may depend on everything the
    run did before (the trace), so that the same command can fail once and
    succeed later.  The last field is the JavaScript engine: [inherited o k]
    is what a read of [o[k]] finds on the prototype chain of [o] when [k]
    is not an own property of [o] ([undefined] when there is nothing
    there). *)
Record Env := mkEnv {
  get_resp : list Event -> string -> value + exn;
  exec_resp : list Event -> string -> string + exn;
  createTemp_resp : list Event -> string + exn;
  inherited : value -> string -> value
}.

Record World := mkWorld {
  progress : VerifyProgress;
  hasFailed : bool;
  hasPrinted : bool;
  cwd : string;
  trace : list Event
}.

Inductive Outcome (A : Type) :=
| Ok (a : A)
| Throw (e : exn).
Arguments Ok {A} a.
Arguments Throw {A} e.

Definition M (A : Type) : Type := World -> Outcome A * World.

Definition ret {A} (a : A) : M A := fun w => (Ok a, w).

Definition bind {A B} (m : M A) (k : A -> M B) : M B :=
  fun w =>
    match m w with
    | (Ok a, w') => k a w'
    | (Throw e, w') => (Throw e, w')
    end.

Definition throw {A} (e : exn) : M A := fun w => (Throw e, w).

(** [try { m } catch (err) { ... }]: the result of [m], or what it threw. *)
Definition attempt {A} (m : M A) : M (A + exn) :=
  fun w =>
    match m w with
    | (Ok a, w') => (Ok (inl a), w')
    | (Throw e, w') => (Ok (inr e), w')
    end.

Declare Scope js_scope.
Delimit Scope js_scope with js.
Notation "x <- m ;; k" := (bind m (fun x => k))
  (at level 100, m at next level, right associativity) : js_scope.
Notation "m ;; k" := (bind m (fun _ => k))
  (at level 100, right associativity) : js_scope.
Open Scope js_scope.

(** [obj[k]]: a [TypeError] on [null] and [undefined]. *)
Definition getProp (v : value) (k : string) : M value :=
  if nullish v
  then throw (TypeError ("Cannot read property '" ++ k ++ "' of " ++ toStr v))
  else ret (prop v k).

(** [String(v)] and [`${v}`]: a [TypeError] on a value that cannot be
    converted. *)
Definition toString (v : value) : M string :=
  if renders v then ret (toStr v)
  else throw (TypeError "Cannot convert object to primitive value").

(** [process.cwd()] and [process.chdir(dir)]; [chdir] of a value that is
    not a string is a [TypeError].  The directories the pipeline enters
    are the one just allocated and the one it started in. *)
Definition process_cwd : M string := fun w => (Ok (cwd w), w).

Definition process_chdir (dir : value) : M unit :=
  match dir with
  | VStr d =>
      fun w => (Ok tt, mkWorld (progress w) (hasFailed w) (hasPrinted w) d (trace w ++ [EChdir d])%list)
  | _ => throw (TypeError "The directory argument must be of type string")
  end.

Module Engine.

(** Modelled from the spec: [Engine.updateProgress] (src/engine.ts is not
    part of the sources).  It sets the status and message of the named
    step, sets the fail flag when the status is [Fail], and hands the
    state to the render hook, recorded here as an [EUpdate] event. *)
Definition updateProgress (id : StepId) (st : Status) (msg : option string) : M unit :=
  fun w =>
    let old := step_of (progress w) id in
    (Ok tt,
     mkWorld (set_step (progress w) id (mkStep st (title old) msg))
             (match st with Fail => true | _ => hasFailed w end)
             (hasPrinted w) (cwd w) (trace w ++ [EUpdate id st msg])%list).

Section Collaborators.
Variable env : Env.

(** Modelled from the spec: [Engine.get], one GET parsed as JSON, which
    fails when the transport fails or the body is not JSON. *)
Definition get (url : string) : M value :=
  fun w =>
    let w' := mkWorld (progress w) (hasFailed w) (hasPrinted w) (cwd w) (trace w ++ [EGet url])%list in
    match get_resp env (trace w) url with
    | inl v => (Ok v, w')
    | inr e => (Throw e, w')
    end.

(** Modelled from the spec: [Engine.exec], a subprocess run in the current
    directory, which yields its standard output or fails. *)
Definition exec (cmd : string) : M string :=
  fun w =>
    let w' := mkWorld (progress w) (hasFailed w) (hasPrinted w) (cwd w) (trace w ++ [EExec cmd])%list in
    match exec_resp env (trace w) cmd with
    | inl out => (Ok out, w')
    | inr e => (Throw e, w')
    end.

(** Modelled from the spec: [Engine.createTemp], a fresh directory or a
    failure. *)
Definition createTemp : M string :=
  fun w =>
    let w' := mkWorld (progress w) (hasFailed w) (hasPrinted w) (cwd w) (trace w ++ [ECreateTemp])%list in
    match createTemp_resp env (trace w) with
    | inl d => (Ok d, w')
    | inr e => (Throw e, w')
    end.

End Collaborators.
End Engine.

(** ** String operations used by the pipeline *)

(** [s.startsWith(p)] and [s.substring(n)]. *)
Definition startsWith (s p : string) : bool := String.prefix p s.
Definition substring_from (n : nat) (s : string) : string := string_drop n s.

Definition dquote : string := String (ascii_of_nat 34) EmptyString.

(** The character classes of the digest pattern: [\s] (on code units below
    256: tab, line feed, vertical tab, form feed, carriage return, space
    and no-break space) and [[0-9a-f]]. *)
Definition is_space (c : ascii) : bool :=
  let n := nat_of_ascii c in
  (((9 <=? n) && (n <=? 13)) || (n =? 32) || (n =? 160))%nat.

Definition is_hex (c : ascii) : bool :=
  let n := nat_of_ascii c in
  (((48 <=? n) && (n <=? 57)) || ((97 <=? n) && (n <=? 102)))%nat.

Fixpoint strip_prefix (p s : string) : option string :=
  match p, s with
  | EmptyString, _ => Some s
  | String a p', String b s' => if Ascii.eqb a b then strip_prefix p' s' else None
  | String _ _, EmptyString => None
  end.

Fixpoint skip_spaces (s : string) : string :=
  match s with
  | String c s' => if is_space c then skip_spaces s' else s
  | EmptyString => s
  end.

Fixpoint take_hex (n : nat) (s : string) : option string :=
  match n with
  | O => Some ""
  | S n' =>
      match s with
      | String c s' =>
          if is_hex c
          then match take_hex n' s' with Some h => Some (String c h) | None => None end
          else None
      | EmptyString => None
      end
  end.

(** The pattern [shasum:\s+([0-9a-f]{40})] anchored at the start of [s];
    the result is capture group 1.  [\s+] is greedy, and giving back a
    space never helps because no space is a hex digit. *)
Definition shasum_match_here (s : string) : option string :=
  match strip_prefix "shasum:" s with
  | Some (String c r) => if is_space c then take_hex 40 (skip_spaces r) else None
  | _ => None
  end.

(** [/shasum:\s+([0-9a-f]{40})/.exec(s)]: the leftmost match, [None] for
    [null]. *)
Fixpoint shasum_exec (s : string) : option string :=
  match shasum_match_here s with
  | Some h => Some h
  | None =>
      match s with
      | EmptyString => None
      | String _ s' => shasum_exec s'
      end
  end.

(** The expression of lines 112-114 on a string [url]. *)
Definition normalizeRepoUrl (url : string) : string :=
  if startsWith url "git+" then substring_from 4 url else url.

(** ** Reading the registry document

    The expressions of [registry] over the answer of the registry.  A
    property read throws only on [null] and [undefined]; [registry] makes
    the first read of [info] with [getProp], and every later receiver
    ([info] again, or a value that has passed a truthiness test) cannot
    throw.  The conversion of a computed key to a string can throw;
    [registry] makes it with [toString] where the source makes it, so
    these expressions are pure. *)

(** [(info['dist-tags'] && info['dist-tags'][version || 'latest']) || version] *)
Definition resolveVersion (env : Env) (info : value) (version : string) : value :=
  js_or (js_and (prop info "dist-tags")
                (member (inherited env) (prop info "dist-tags")
                        (if version =? "" then "latest" else version)))
        (VStr version).

(** [!!info.versions && info.versions[resolvedVersion]], for a
    [resolvedVersion] that converts to a string. *)
Definition findVersionInfo (env : Env) (info resolvedVersion : value) : value :=
  js_and (VBool (truthy (prop info "versions")))
         (member (inherited env) (prop info "versions") (toStr resolvedVersion)).

(** [versionInfo['_shasum'] || (versionInfo.dist && versionInfo.dist.shasum)] *)
Definition registryShasum (versionInfo : value) : value :=
  js_or (prop versionInfo "_shasum")
        (js_and (prop versionInfo "dist") (prop (prop versionInfo "dist") "shasum")).

(** ** The verifier *)

Record RegistryResult := mkRegistryResult {
  resolvedVersion : value;
  repoUrl : value;
  shasum : value;
  gitHead : value
}.

Record CheckoutResult := mkCheckoutResult {
  tempDir : value;
  refspec : value
}.

Record PackResult := mkPackResult {
  remoteShasum : value
}.

Module Verifier.
Import Engine.

Section WithEnv.
Variable env : Env.

Definition registry (packageName version : string) : M RegistryResult :=
  updateProgress Registry Working None ;;
  r <- attempt (get env ("https://registry.npmjs.com/" ++ packageName)) ;;
  match r with
  | inr _ =>
      updateProgress Registry Fail (Some "Error fetching package data from registry") ;;
      ret (mkRegistryResult VUndefined VUndefined VUndefined VUndefined)
  | inl info =>
      _ <- getProp info "dist-tags" ;;
      let resolvedVersion := resolveVersion env info version in
      if negb (truthy resolvedVersion) then
        updateProgress Registry Fail (Some ("Cannot resolve version " ++ version)) ;;
        ret (mkRegistryResult VUndefined VUndefined VUndefined VUndefined)
      else
      (* info.versions[resolvedVersion] converts its key, when it is read *)
      _ <- (if truthy (prop info "versions") then toString resolvedVersion else ret "") ;;
      let versionInfo := findVersionInfo env info resolvedVersion in
      if negb (truthy versionInfo) then
        rv <- toString resolvedVersion ;;
        updateProgress Registry Fail
          (Some ("Cannot find info for version " ++ rv ++ " <<<<")) ;;
        ret (mkRegistryResult VUndefined VUndefined VUndefined VUndefined)
      else
      updateProgress Registry Pass None ;;
      updateProgress Repo Working None ;;
      let repository := prop versionInfo "repository" in
      if negb (truthy repository) then
        rv <- toString resolvedVersion ;;
        updateProgress Repo Fail
          (Some ("Repository is not specified for version " ++ rv)) ;;
        ret (mkRegistryResult VUndefined VUndefined VUndefined VUndefined)
      else
      if negb (strict_eq (prop repository "type") (VStr "git")) then
        repoType <- toString (prop repository "type") ;;
        rv <- toString resolvedVersion ;;
        updateProgress Repo Fail
          (Some ("Non-git (" ++ repoType ++ ") repository specified for version " ++ rv)) ;;
        ret (mkRegistryResult VUndefined VUndefined VUndefined VUndefined)
      else
      let url := prop repository "url" in
      if negb (truthy url) then
        rv <- toString resolvedVersion ;;
        updateProgress Repo Fail
          (Some ("Repository URL is not specified for version " ++ rv)) ;;
        ret (mkRegistryResult VUndefined VUndefined VUndefined VUndefined)
      else
      repoUrl <- match url with
                 | VStr u => ret (VStr (normalizeRepoUrl u))
                 | _ => throw (TypeError "versionInfo.repository.url.startsWith is not a function")
                 end ;;
      updateProgress Repo Pass None ;;
      updateProgress GitHead Working None ;;
      (if negb (truthy (prop versionInfo "gitHead"))
       then rv <- toString resolvedVersion ;;
            updateProgress GitHead Warn
              (Some ("GitHead is not specified for version " ++ rv))
       else ret tt) ;;
      updateProgress GitHead Pass None ;;
      let shasum := registryShasum versionInfo in
      ret (mkRegistryResult resolvedVersion repoUrl shasum VUndefined)
  end.

(** The arguments are strings in the source; [verify] passes a [repoUrl]
    that is a string and a [resolvedVersion] that [registry] has already
    converted to a string, so the template literals are [toStr]. *)
Definition checkout (repoUrl gitHead resolvedVersion : value) : M CheckoutResult :=
  updateProgress Checkout Working None ;;
  cwd <- process_cwd ;;
  t <- attempt (createTemp env) ;;
  match t with
  | inr _ =>
      updateProgress Checkout Fail (Some "Error creating temp directory") ;;
      ret (mkCheckoutResult VUndefined VUndefined)
  | inl tempDir =>
      process_chdir (VStr tempDir) ;;
      i <- attempt (exec env "git init") ;;
      match i with
      | inr _ =>
          updateProgress Checkout Fail (Some "Error initializing git repo in temp directory") ;;
          process_chdir (VStr cwd) ;;
          ret (mkCheckoutResult (VStr tempDir) VUndefined)
      | inl _ =>
      a <- attempt (exec env ("git remote add origin " ++ dquote ++ toStr repoUrl ++ dquote)) ;;
      match a with
      | inr _ =>
          updateProgress Checkout Fail (Some "Error initializing git repo in temp directory") ;;
          process_chdir (VStr cwd) ;;
          ret (mkCheckoutResult (VStr tempDir) VUndefined)
      | inl _ =>
      (* what follows the fetch: checkout of FETCH_HEAD *)
      let finish (refspec : value) : M CheckoutResult :=
        c <- attempt (exec env "git checkout FETCH_HEAD") ;;
        match c with
        | inr _ =>
            updateProgress Checkout Fail (Some "Unable to checkout FETCH_HEAD") ;;
            process_chdir (VStr cwd) ;;
            ret (mkCheckoutResult (VStr tempDir) refspec)
        | inl _ =>
            process_chdir (VStr cwd) ;;
            updateProgress Checkout Pass None ;;
            ret (mkCheckoutResult (VStr tempDir) refspec)
        end in
      if truthy gitHead then
        f <- attempt (exec env ("git fetch --depth 1 origin " ++ toStr gitHead)) ;;
        match f with
        | inl _ => finish gitHead
        | inr _ =>
            short <- match gitHead with
                     | VStr g => ret (substring 0 7 g)
                     | _ => throw (TypeError "gitHead.substring is not a function")
                     end ;;
            updateProgress Checkout Fail
              (Some ("Unable fetch commit from remote (" ++ short ++ ")")) ;;
            process_chdir (VStr cwd) ;;
            ret (mkCheckoutResult (VStr tempDir) VUndefined)
        end
      else
        f <- attempt (exec env ("git fetch --depth 1 origin tags/v" ++ toStr resolvedVersion)) ;;
        match f with
        | inl _ => finish (VStr ("tags/v" ++ toStr resolvedVersion))
        | inr _ =>
            g <- attempt (exec env ("git fetch --depth 1 origin tags/" ++ toStr resolvedVersion)) ;;
            match g with
            | inl _ => finish (VStr ("tags/" ++ toStr resolvedVersion))
            | inr _ =>
                updateProgress Checkout Fail
                  (Some ("Unable fetch tag from remote (tags/" ++ toStr resolvedVersion
                           ++ " or tags/v" ++ toStr resolvedVersion ++ ")")) ;;
                process_chdir (VStr cwd) ;;
                ret (mkCheckoutResult (VStr tempDir) VUndefined)
            end
        end
      end
      end
  end.

Definition pack (tempDir : value) : M PackResult :=
  updateProgress Pack Working None ;;
  cwd <- process_cwd ;;
  process_chdir tempDir ;;
  (* what follows a pack command that succeeded: parsing its output *)
  let parse (stdout : string) : M PackResult :=
    m <- attempt (match shasum_exec stdout with
                  | Some h => ret h
                  | None => throw (TypeError "Cannot read property '1' of null")
                  end) ;;
    match m with
    | inr _ =>
        updateProgress Pack Fail (Some "Error parsing shasum from pack output") ;;
        process_chdir (VStr cwd) ;;
        ret (mkPackResult VUndefined)
    | inl remoteShasum =>
        updateProgress Pack Pass None ;;
        process_chdir (VStr cwd) ;;
        ret (mkPackResult (VStr remoteShasum))
    end in
  first <- attempt (out <- exec env "npm pack --dry-run" ;;
                    updateProgress Install Skipped None ;;
                    ret out) ;;
  match first with
  | inl stdout => parse stdout
  | inr _ =>
      (* failedWithoutDependencies *)
      inst <- attempt (updateProgress Pack Pending (Some "Waiting for dependencies") ;;
                       updateProgress Install Working None ;;
                       exec env "npm ci" ;;
                       updateProgress Install Pass None) ;;
      match inst with
      | inr _ =>
          updateProgress Install Fail (Some "Error installing dependencies") ;;
          process_chdir (VStr cwd) ;;
          ret (mkPackResult VUndefined)
      | inl _ =>
          again <- attempt (updateProgress Pack Working None ;;
                            exec env "npm pack --dry-run") ;;
          match again with
          | inr err =>
              updateProgress Pack Fail
                (Some ("Error creating package from remote files" ++ exn_toString err)) ;;
              process_chdir (VStr cwd) ;;
              ret (mkPackResult VUndefined)
          | inl stdout => parse stdout
          end
      end
  end.

Definition compare (registryShasum remoteShasum : value) : M unit :=
  updateProgress Compare Working None ;;
  if strict_eq registryShasum remoteShasum
  then updateProgress Compare Pass None
  else updateProgress Compare Fail (Some "Shasums do not match").

Definition reset : M unit :=
  fun w => (Ok tt, mkWorld createProgress false false (cwd w) (trace w)).

Definition getHasFailed : M bool := fun w => (Ok (hasFailed w), w).

Definition verify (packageName version : string) : M bool :=
  reset ;;
  r <- registry packageName version ;;
  failed <- getHasFailed ;;
  if failed then ret false else
  c <- checkout (repoUrl r) (gitHead r) (resolvedVersion r) ;;
  failed <- getHasFailed ;;
  if failed then ret false else
  p <- pack (tempDir c) ;;
  failed <- getHasFailed ;;
  if failed then ret false else
  compare (shasum r) (remoteShasum p) ;;
  failed <- getHasFailed ;;
  if failed then ret false else
  ret true.

End WithEnv.
End Verifier.

(** * Specifications *)

(** ** The digest pattern, declaratively *)

Fixpoint all_chars (f : ascii -> bool) (s : string) : bool :=
  match s with
  | EmptyString => true
  | String c s' => f c && all_chars f s'
  end.

(** [out] contains, after [pre], a match of [shasum:\s+([0-9a-f]{40})]
    whose spaces are [ws] and whose capture group is [h]. *)
Definition shasum_at (pre ws h post out : string) : Prop :=
  out = pre ++ "shasum:" ++ ws ++ h ++ post
  /\ ws <> "" /\ all_chars is_space ws = true
  /\ String.length h = 40 /\ all_chars is_hex h = true.

(** ** Runs as event lists

    Every operation of the pipeline changes the world through the event
    it appends, so the world after a phase is the replay of its events. *)

Definition apply_event (e : Event) (w : World) : World :=
  match e with
  | EUpdate id st msg =>
      mkWorld (set_step (progress w) id (mkStep st (title (step_of (progress w) id)) msg))
              (match st with Fail => true | _ => hasFailed w end)
              (hasPrinted w) (cwd w) (trace w ++ [e])%list
  | EChdir d =>
      mkWorld (progress w) (hasFailed w) (hasPrinted w) d (trace w ++ [e])%list
  | _ =>
      mkWorld (progress w) (hasFailed w) (hasPrinted w) (cwd w) (trace w ++ [e])%list
  end.

Definition replay (l : list Event) (w : World) : World :=
  fold_left (fun w e => apply_event e w) l w.

Definition is_fail (e : Event) : bool :=
  match e with EUpdate _ Fail _ => true | _ => false end.

Definition is_chdir (e : Event) : bool :=
  match e with EChdir _ => true | _ => false end.

Definition has_fail (l : list Event) : bool := existsb is_fail l.

(** The world [verify] starts from, after its three assignments. *)
Definition reset_world (w : World) : World :=
  mkWorld createProgress false false (cwd w) (trace w).

Definition noRegistry : RegistryResult :=
  mkRegistryResult VUndefined VUndefined VUndefined VUndefined.

(** The runs of [registry]: the events it appends and its outcome. *)
Inductive registry_run : list Event -> Outcome RegistryResult -> Prop :=
| reg_throw_info url m :
    registry_run [EUpdate Registry Working None; EGet url] (Throw (TypeError m))
| reg_fail url m :
    registry_run [EUpdate Registry Working None; EGet url;
                  EUpdate Registry Fail (Some m)] (Ok noRegistry)
| reg_repo_fail url m :
    registry_run [EUpdate Registry Working None; EGet url;
                  EUpdate Registry Pass None; EUpdate Repo Working None;
                  EUpdate Repo Fail (Some m)] (Ok noRegistry)
| reg_throw_url url m :
    registry_run [EUpdate Registry Working None; EGet url;
                  EUpdate Registry Pass None; EUpdate Repo Working None]
                 (Throw (TypeError m))
| reg_pass url rv u sh :
    registry_run [EUpdate Registry Working None; EGet url;
                  EUpdate Registry Pass None; EUpdate Repo Working None;
                  EUpdate Repo Pass None; EUpdate GitHead Working None;
                  EUpdate GitHead Pass None]
                 (Ok (mkRegistryResult rv (VStr u) sh VUndefined))
| reg_warn_pass url rv u sh m :
    registry_run [EUpdate Registry Working None; EGet url;
                  EUpdate Registry Pass None; EUpdate Repo Working None;
                  EUpdate Repo Pass None; EUpdate GitHead Working None;
                  EUpdate GitHead Warn (Some m); EUpdate GitHead Pass None]
                 (Ok (mkRegistryResult rv (VStr u) sh VUndefined)).

(** The runs of [checkout] started in directory [c0].  [fs] are the fetch
    commands that were tried, one or two. *)
Inductive fetches : list Event -> Prop :=
| fetch_one f : fetches [EExec f]
| fetch_two f g : fetches [EExec f; EExec g].

Inductive checkout_run (c0 : string) (gitHead : value) :
  list Event -> Outcome CheckoutResult -> Prop :=
| ck_temp_fail m :
    checkout_run c0 gitHead
      [EUpdate Checkout Working None; ECreateTemp; EUpdate Checkout Fail (Some m)]
      (Ok (mkCheckoutResult VUndefined VUndefined))
| ck_init_fail d c1 m :
    checkout_run c0 gitHead
      [EUpdate Checkout Working None; ECreateTemp; EChdir d; EExec c1;
       EUpdate Checkout Fail (Some m); EChdir c0]
      (Ok (mkCheckoutResult (VStr d) VUndefined))
| ck_fetch_fail d c1 c2 fs m :
    (fs = [] \/ fetches fs) ->
    checkout_run c0 gitHead
      ([EUpdate Checkout Working None; ECreateTemp; EChdir d; EExec c1; EExec c2]
         ++ fs ++ [EUpdate Checkout Fail (Some m); EChdir c0])%list
      (Ok (mkCheckoutResult (VStr d) VUndefined))
| ck_fetch_throw d c1 c2 f m :
    truthy gitHead = true -> (forall g, gitHead <> VStr g) ->
    checkout_run c0 gitHead
      [EUpdate Checkout Working None; ECreateTemp; EChdir d; EExec c1; EExec c2; EExec f]
      (Throw (TypeError m))
| ck_head_fail d c1 c2 fs c3 r m :
    fetches fs ->
    checkout_run c0 gitHead
      ([EUpdate Checkout Working None; ECreateTemp; EChdir d; EExec c1; EExec c2]
         ++ fs ++ [EExec c3; EUpdate Checkout Fail (Some m); EChdir c0])%list
      (Ok (mkCheckoutResult (VStr d) r))
| ck_pass d c1 c2 fs c3 r :
    fetches fs ->
    checkout_run c0 gitHead
      ([EUpdate Checkout Working None; ECreateTemp; EChdir d; EExec c1; EExec c2]
         ++ fs ++ [EExec c3; EChdir c0; EUpdate Checkout Pass None])%list
      (Ok (mkCheckoutResult (VStr d) r)).

(** The runs of [pack] started in directory [c0]. *)
Inductive pack_run (c0 : string) (tempDir : value) :
  list Event -> Outcome PackResult -> Prop :=
| pk_throw m :
    (forall d, tempDir <> VStr d) ->
    pack_run c0 tempDir [EUpdate Pack Working None] (Throw (TypeError m))
| pk_pass d c h :
    tempDir = VStr d -> String.length h = 40 ->
    pack_run c0 tempDir
      [EUpdate Pack Working None; EChdir d; EExec c; EUpdate Install Skipped None;
       EUpdate Pack Pass None; EChdir c0]
      (Ok (mkPackResult (VStr h)))
| pk_parse_fail d c m :
    tempDir = VStr d ->
    pack_run c0 tempDir
      [EUpdate Pack Working None; EChdir d; EExec c; EUpdate Install Skipped None;
       EUpdate Pack Fail (Some m); EChdir c0]
      (Ok (mkPackResult VUndefined))
| pk_install_fail d c m1 ci m :
    tempDir = VStr d ->
    pack_run c0 tempDir
      [EUpdate Pack Working None; EChdir d; EExec c;
       EUpdate Pack Pending (Some m1); EUpdate Install Working None; EExec ci;
       EUpdate Install Fail (Some m); EChdir c0]
      (Ok (mkPackResult VUndefined))
| pk_retry_fail d c m1 ci c' m :
    tempDir = VStr d ->
    pack_run c0 tempDir
      [EUpdate Pack Working None; EChdir d; EExec c;
       EUpdate Pack Pending (Some m1); EUpdate Install Working None; EExec ci;
       EUpdate Install Pass None; EUpdate Pack Working None; EExec c';
       EUpdate Pack Fail (Some m); EChdir c0]
      (Ok (mkPackResult VUndefined))
| pk_retry_pass d c m1 ci c' h :
    tempDir = VStr d -> String.length h = 40 ->
    pack_run c0 tempDir
      [EUpdate Pack Working None; EChdir d; EExec c;
       EUpdate Pack Pending (Some m1); EUpdate Install Working None; EExec ci;
       EUpdate Install Pass None; EUpdate Pack Working None; EExec c';
       EUpdate Pack Pass None; EChdir c0]
      (Ok (mkPackResult (VStr h))).

(** The runs of [compare]. *)
Inductive compare_run (a b : value) : list Event -> Prop :=
| cmp_pass :
    strict_eq a b = true ->
    compare_run a b [EUpdate Compare Working None; EUpdate Compare Pass None]
| cmp_fail :
    strict_eq a b = false ->
    compare_run a b [EUpdate Compare Working None;
                     EUpdate Compare Fail (Some "Shasums do not match")].

(** The runs of [verify] from the world [w0] it has reset: the phases in
    order, cut at the first one that throws or sets the fail flag.  Each
    case records what the phase returned and the events it appended. *)
Inductive verify_run (env : Env) (packageName version : string) (w0 : World) :
  list Event -> Outcome bool -> Prop :=
| vr_registry_throw l e :
    Verifier.registry env packageName version w0 = (Throw e, replay l w0) ->
    registry_run l (Throw e) ->
    verify_run env packageName version w0 l (Throw e)
| vr_registry_fail l r :
    Verifier.registry env packageName version w0 = (Ok r, replay l w0) ->
    registry_run l (Ok r) -> has_fail l = true ->
    verify_run env packageName version w0 l (Ok false)
| vr_checkout_throw l1 r l2 e :
    Verifier.registry env packageName version w0 = (Ok r, replay l1 w0) ->
    registry_run l1 (Ok r) -> has_fail l1 = false ->
    Verifier.checkout env (repoUrl r) (gitHead r) (resolvedVersion r) (replay l1 w0)
      = (Throw e, replay (l1 ++ l2) w0) ->
    checkout_run (cwd w0) (gitHead r) l2 (Throw e) ->
    verify_run env packageName version w0 (l1 ++ l2)%list (Throw e)
| vr_checkout_fail l1 r l2 c :
    Verifier.registry env packageName version w0 = (Ok r, replay l1 w0) ->
    registry_run l1 (Ok r) -> has_fail l1 = false ->
    Verifier.checkout env (repoUrl r) (gitHead r) (resolvedVersion r) (replay l1 w0)
      = (Ok c, replay (l1 ++ l2) w0) ->
    checkout_run (cwd w0) (gitHead r) l2 (Ok c) -> has_fail l2 = true ->
    verify_run env packageName version w0 (l1 ++ l2)%list (Ok false)
| vr_pack_throw l1 r l2 c l3 e :
    Verifier.registry env packageName version w0 = (Ok r, replay l1 w0) ->
    registry_run l1 (Ok r) -> has_fail l1 = false ->
    Verifier.checkout env (repoUrl r) (gitHead r) (resolvedVersion r) (replay l1 w0)
      = (Ok c, replay (l1 ++ l2) w0) ->
    checkout_run (cwd w0) (gitHead r) l2 (Ok c) -> has_fail l2 = false ->
    Verifier.pack env (tempDir c) (replay (l1 ++ l2) w0)
      = (Throw e, replay (l1 ++ l2 ++ l3) w0) ->
    pack_run (cwd w0) (tempDir c) l3 (Throw e) ->
    verify_run env packageName version w0 (l1 ++ l2 ++ l3)%list (Throw e)
| vr_pack_fail l1 r l2 c l3 p :
    Verifier.registry env packageName version w0 = (Ok r, replay l1 w0) ->
    registry_run l1 (Ok r) -> has_fail l1 = false ->
    Verifier.checkout env (repoUrl r) (gitHead r) (resolvedVersion r) (replay l1 w0)
      = (Ok c, replay (l1 ++ l2) w0) ->
    checkout_run (cwd w0) (gitHead r) l2 (Ok c) -> has_fail l2 = false ->
    Verifier.pack env (tempDir c) (replay (l1 ++ l2) w0)
      = (Ok p, replay (l1 ++ l2 ++ l3) w0) ->
    pack_run (cwd w0) (tempDir c) l3 (Ok p) -> has_fail l3 = true ->
    verify_run env packageName version w0 (l1 ++ l2 ++ l3)%list (Ok false)
| vr_compare l1 r l2 c l3 p l4 :
    Verifier.registry env packageName version w0 = (Ok r, replay l1 w0) ->
    registry_run l1 (Ok r) -> has_fail l1 = false ->
    Verifier.checkout env (repoUrl r) (gitHead r) (resolvedVersion r) (replay l1 w0)
      = (Ok c, replay (l1 ++ l2) w0) ->
    checkout_run (cwd w0) (gitHead r) l2 (Ok c) -> has_fail l2 = false ->
    Verifier.pack env (tempDir c) (replay (l1 ++ l2) w0)
      = (Ok p, replay (l1 ++ l2 ++ l3) w0) ->
    pack_run (cwd w0) (tempDir c) l3 (Ok p) -> has_fail l3 = false ->
    compare_run (shasum r) (remoteShasum p) l4 ->
    verify_run env packageName version w0 (l1 ++ l2 ++ l3 ++ l4)%list
               (Ok (negb (has_fail l4))).

(** ** Status histories *)

(** The progress table after the updates of [l], from the table [p]. *)
Definition progress_after (p : VerifyProgress) (l : list Event) : VerifyProgress :=
  fold_left
    (fun p e =>
       match e with
       | EUpdate id st msg => set_step p id (mkStep st (title (step_of p id)) msg)
       | _ => p
       end) l p.

(** [l], replayed from [p], contains an update that takes step [id] from
    status [old] to status [new]. *)
Definition moves (p : VerifyProgress) (l : list Event) (id : StepId) (old new : Status) : Prop :=
  exists pre msg post,
    l = (pre ++ EUpdate id new msg :: post)%list
    /\ old = status_of (progress_after p pre) id.

(** Pending, then Working, then one of the final statuses. *)
Definition rank (s : Status) : nat :=
  match s with
  | Pending => 0
  | Working => 1
  | Pass | Fail | Warn | Skipped => 2
  end.

Definition forward (id : StepId) (old new : Status) : bool := (rank old <=? rank new)%nat.

(** Forward, or the pack step going back to wait for the dependencies. *)
Definition forward_or_pack_waits (id : StepId) (old new : Status) : bool :=
  forward id old new ||
  match id, old, new with
  | Pack, Working, Pending => true
  | _, _, _ => false
  end.

Fixpoint transitions_ok (ok : StepId -> Status -> Status -> bool)
         (p : VerifyProgress) (l : list Event) : bool :=
  match l with
  | [] => true
  | e :: l' =>
      match e with
      | EUpdate id st _ => ok id (status_of p id) st
      | _ => true
      end && transitions_ok ok (progress_after p [e]) l'
  end.

Definition later_pending (id : StepId) (p : VerifyProgress) : bool :=
  forallb (fun j => if (step_index id <? step_index j)%nat
                    then match status_of p j with Pending => true | _ => false end
                    else true) all_steps.

(** After a [Fail] update only the directory is restored, and the steps
    ordered after the failed one are [Pending]. *)
Fixpoint fail_halts (p : VerifyProgress) (l : list Event) : bool :=
  match l with
  | [] => true
  | e :: l' =>
      match e with
      | EUpdate id Fail _ => forallb is_chdir l' && later_pending id (progress_after p [e])
      | _ => true
      end && fail_halts (progress_after p [e]) l'
  end.

(** The events a run of [verify] appends to the trace. *)
Definition verify_events (env : Env) (packageName version : string) (w : World) : list Event :=
  skipn (List.length (trace w)) (trace (snd (Verifier.verify env packageName version w))).

(** ** Notions used by the statements *)

(** The commands a list of events ran, in order. *)
Definition execs (l : list Event) : list string :=
  flat_map (fun e => match e with EExec c => [c] | _ => [] end) l.

(** No match of the digest pattern in [out] starts before the one after
    [pre]. *)
Definition leftmost (pre out : string) : Prop :=
  forall pre' ws' h' post',
    shasum_at pre' ws' h' post' out -> String.length pre <= String.length pre'.

(** The output of the pack command that [pack] parses, when the command
    succeeds at once or after [npm ci]. *)
Definition pack_output (env : Env) (tempDir : string) (w : World) : option string :=
  let t0 := (trace w ++ [EUpdate Pack Working None; EChdir tempDir])%list in
  match exec_resp env t0 "npm pack --dry-run" with
  | inl out => Some out
  | inr _ =>
      let t1 := (t0 ++ [EExec "npm pack --dry-run";
                        EUpdate Pack Pending (Some "Waiting for dependencies");
                        EUpdate Install Working None])%list in
      match exec_resp env t1 "npm ci" with
      | inr _ => None
      | inl _ =>
          match exec_resp env (t1 ++ [EExec "npm ci"; EUpdate Install Pass None;
                                      EUpdate Pack Working None])
                          "npm pack --dry-run" with
          | inl out => Some out
          | inr _ => None
          end
      end
  end.

(** The registry document gives the resolved version, which converts to
    a string, a git repository whose URL is the non-empty string [u], so
    that [registry] gets as far as the gitHead step. *)
Definition reaches_gitHead (env : Env) (info : value) (version u : string) : Prop :=
  let versionInfo := findVersionInfo env info (resolveVersion env info version) in
  nullish info = false
  /\ truthy (resolveVersion env info version) = true
  /\ renders (resolveVersion env info version) = true
  /\ truthy versionInfo = true
  /\ truthy (prop versionInfo "repository") = true
  /\ strict_eq (prop (prop versionInfo "repository") "type") (VStr "git") = true
  /\ prop (prop versionInfo "repository") "url" = VStr u
  /\ u <> "".



(** The answer of a collaborator to the call [e], made after the events
    [t], is a failure. *)
Definition call_fails (env : Env) (t : list Event) (e : Event) : bool :=
  match e with
  | EGet u => match get_resp env t u with inr _ => true | inl _ => false end
  | EExec c => match exec_resp env t c with inr _ => true | inl _ => false end
  | ECreateTemp => match createTemp_resp env t with inr _ => true | inl _ => false end
  | _ => false
  end.






(** ** Example runs *)

Definition example_sha : string := "deadbeefdeadbeefdeadbeefdeadbeefdeadbeef".

Definition example_info (versionInfo : value) : value :=
  VObj [("dist-tags", VObj [("latest", VStr "1.2.3")]);
        ("versions", VObj [("1.2.3", versionInfo)])].

Definition git_repository : value :=
  VObj [("type", VStr "git"); ("url", VStr "git+https://github.com/o/r.git")].

(** The calls of [l], made after [t], that fail. *)
Fixpoint failed_calls (env : Env) (t l : list Event) : list Event :=
  match l with
  | [] => []
  | e :: rest =>
      ((if call_fails env t e then [e] else []) ++ failed_calls env (t ++ [e]) rest)%list
  end.


(** The members every object inherits from [Object.prototype], with
    their renderings in Node.js.  The documents of the example runs are
    read with computed keys in objects only, so the further members of
    arrays, strings and numbers are not listed. *)
Definition object_prototype (o : value) (k : string) : value :=
  match o with
  | VObj _ =>
      if k =? "constructor" then VNative "function Object() { [native code] }"
      else if k =? "__proto__" then VNative "[object Object]"
      else if existsb (String.eqb k)
                ["toString"; "toLocaleString"; "valueOf"; "hasOwnProperty";
                 "isPrototypeOf"; "propertyIsEnumerable"; "__defineGetter__";
                 "__defineSetter__"; "__lookupGetter__"; "__lookupSetter__"]
      then VNative ("function " ++ k ++ "() { [native code] }")
      else VUndefined
  | _ => VUndefined
  end.

Definition ran (cmd : string) (tr : list Event) : bool :=
  existsb (fun e => match e with EExec c => c =? cmd | _ => false end) tr.

(** The registry answers [info]; the commands of [failing] fail; the pack
    command prints [pack_out], after [npm ci] only when [needs_install]. *)
Definition example_env (info : value) (failing : list string) (needs_install : bool)
           (pack_out : string) : Env :=
  mkEnv (fun _ _ => inl info)
        (fun tr cmd =>
           if existsb (String.eqb cmd) failing then inr (Rejected "Error: Command failed")
           else if cmd =? "npm pack --dry-run"
                then if needs_install && negb (ran "npm ci" tr)
                     then inr (Rejected "Error: Command failed")
                     else inl pack_out
                else inl "")
        (fun _ => inl "/tmp/tbv-1")
        object_prototype.

Definition example_world : World :=
  mkWorld createProgress true true "/home/user" [].

(** The run in which the first pack attempt fails and the one after
    [npm ci] succeeds. *)
Definition install_env : Env :=
  example_env (example_info (VObj [("repository", git_repository);
                                   ("dist", VObj [("shasum", VStr example_sha)])]))
              [] true ("shasum: " ++ example_sha).

(** The run against a Subversion repository (scenario B). *)
Definition svn_env : Env :=
  example_env (example_info
                 (VObj [("repository", VObj [("type", VStr "svn");
                                             ("url", VStr "https://svn.example.org/r")])]))
              [] false "".

(** The run in which the commit cannot be fetched. *)
Definition no_commit_env : Env :=
  example_env (example_info (VObj [])) ["git fetch --depth 1 origin abc1234def"] false "".

(** The run in which only the tag without the prefix exists (scenario C). *)
Definition plain_tag_env : Env :=
  example_env (example_info (VObj [("repository", git_repository)]))
              ["git fetch --depth 1 origin tags/v1.2.3"] false ("shasum: " ++ example_sha).

(** The registry document of scenario A: the version records its commit. *)
Definition commit_env : Env :=
  example_env (example_info
                 (VObj [("repository", git_repository);
                        ("gitHead", VStr "abc123abc123abc123abc123abc123abc123abcd");
                        ("dist", VObj [("shasum", VStr example_sha)])]))
              [] false ("shasum: " ++ example_sha).

(** The registry document without any digest. *)
Definition no_digest_env : Env :=
  example_env (example_info (VObj [("repository", git_repository)]))
              [] false ("shasum: " ++ example_sha).


(** The registry records another digest than the one the pack command
    prints (scenario D). *)
Definition mismatch_env : Env :=
  example_env (example_info
                 (VObj [("repository", git_repository);
                        ("dist", VObj [("shasum",
                                        VStr "aaaaaaaaaaaaaaaaaaaaaaaaaaaaaaaaaaaaaaaa")])]))
              [] false "shasum: bbbbbbbbbbbbbbbbbbbbbbbbbbbbbbbbbbbbbbbb".

(** A document without dist-tags, whose [versions] has no entry of its
    own under "constructor". *)
Definition no_tags_env : Env :=
  example_env (VObj [("versions", VObj [("1.2.3", VObj [("repository", git_repository)])])])
              [] false "".

(** A document whose [versions] has an entry of its own under
    "constructor". *)
Definition constructor_version_env : Env :=
  example_env (VObj [("dist-tags", VObj [("latest", VStr "1.2.3")]);
                     ("versions",
                      VObj [("constructor", VObj [("repository", git_repository)])])])
              [] false "".

(** A document whose repository type is the object [{"toString": 0}]. *)
Definition unprintable_type_env : Env :=
  example_env (example_info
                 (VObj [("repository",
                         VObj [("type", VObj [("toString", VNum "0")]);
                               ("url", VStr "https://github.com/o/r.git")])]))
              [] false "".

(** A document whose [versions] is an array, and whose tag [latest] is
    the index "0". *)
Definition array_versions_env : Env :=
  example_env (VObj [("dist-tags", VObj [("latest", VStr "0")]);
                     ("versions",
                      VArr [VObj [("repository", git_repository);
                                  ("dist", VObj [("shasum", VStr example_sha)])]])])
              [] false ("shasum: " ++ example_sha).

(** ** Notions used by the further properties *)

Definition registryUrl (packageName : string) : string :=
  "https://registry.npmjs.com/" ++ packageName.

(** The URLs a list of events requested, in order. *)
Definition gets (l : list Event) : list string :=
  flat_map (fun e => match e with EGet u => [u] | _ => [] end) l.

Definition statuses (p : VerifyProgress) : list Status := map (status_of p) all_steps.

Definition failed_steps (p : VerifyProgress) : list StepId :=
  filter (fun j => match status_of p j with Fail => true | _ => false end) all_steps.

(** The table of a run that returned [b]: no step is Working, the steps
    that were reached come before the Pending ones, and either nothing
    failed and every step is Pass (install may be Skipped), or exactly one
    step is Fail. *)
Definition settled (b : bool) (p : VerifyProgress) : bool :=
  forallb (fun j => match status_of p j with Working => false | _ => true end) all_steps
  && forallb (fun i =>
       forallb (fun j =>
         if (step_index i <? step_index j)%nat
         then match status_of p i, status_of p j with
              | Pending, Pending => true
              | Pending, _ => false
              | _, _ => true
              end
         else true) all_steps) all_steps
  && (if b
      then forallb (fun j => match j, status_of p j with
                             | _, Pass => true
                             | Install, Skipped => true
                             | _, _ => false
                             end) all_steps
      else (List.length (failed_steps p) =? 1)%nat).

(** [l] is an initial segment of [full]. *)
Definition initial_segment (l full : list string) : Prop :=
  exists rest, full = (l ++ rest)%list.

(** The commands [checkout] can run, in order, for its arguments. *)
Definition checkout_commands (repoUrl gitHead resolvedVersion : value) (both_tags : bool)
  : list string :=
  let setup := ["git init";
                "git remote add origin " ++ dquote ++ toStr repoUrl ++ dquote] in
  let fetch :=
    if truthy gitHead then ["git fetch --depth 1 origin " ++ toStr gitHead]
    else if both_tags
         then ["git fetch --depth 1 origin tags/v" ++ toStr resolvedVersion;
               "git fetch --depth 1 origin tags/" ++ toStr resolvedVersion]
         else ["git fetch --depth 1 origin tags/v" ++ toStr resolvedVersion] in
  (setup ++ fetch ++ ["git checkout FETCH_HEAD"])%list.


(** The registry cannot be reached. *)
Definition offline_env : Env :=
  mkEnv (fun _ _ => inr (Rejected "Error: getaddrinfo ENOTFOUND registry.npmjs.com"))
        (fun _ _ => inl "") (fun _ => inl "/tmp/tbv-1") object_prototype.

(** The registry document has no tag [latest]. *)
Definition no_latest_env : Env :=
  mkEnv (fun _ _ => inl (VObj [("dist-tags", VObj [("next", VStr "2.0.0")]);
                               ("versions", VObj [("2.0.0", VObj [])])]))
        (fun _ _ => inl "") (fun _ => inl "/tmp/tbv-1") object_prototype.

(** The registry records the legacy digest and another one under [dist]. *)
Definition legacy_digest_env : Env :=
  example_env (example_info
                 (VObj [("repository", git_repository);
                        ("_shasum", VStr example_sha);
                        ("dist", VObj [("shasum",
                                        VStr "aaaaaaaaaaaaaaaaaaaaaaaaaaaaaaaaaaaaaaaa")])]))
              [] false ("shasum: " ++ example_sha).

(** No temporary directory can be allocated. *)
Definition no_temp_env : Env :=
  mkEnv (fun _ _ => inl (example_info (VObj [("repository", git_repository)])))
        (fun _ _ => inl "") (fun _ => inr (Rejected "Error: ENOSPC")) object_prototype.

(** The commands of [failing] fail, and [npm ci] never helps. *)
Definition failing_env (failing : list string) : Env :=
  mkEnv (fun _ _ => inl (example_info (VObj [("repository", git_repository)])))
        (fun _ cmd => if existsb (String.eqb cmd) failing
                      then inr (Rejected "Error: Command failed")
                      else inl ("shasum: " ++ example_sha))
        (fun _ => inl "/tmp/tbv-1")
        object_prototype.

(** * Properties *)

(** ** Strings *)

Lemma prefix_append (p r : string) : String.prefix p (p ++ r) = true.
Proof.
  induction p as [|a p IH]; simpl.
  - destruct r; reflexivity.
  - destruct (ascii_dec a a); [exact IH | congruence].
Qed.

Lemma prefix_split (p s : string) :
  String.prefix p s = true -> s = p ++ string_drop (String.length p) s.
Proof.
  revert s; induction p as [|a p IH]; intros s H; simpl.
  - reflexivity.
  - destruct s as [|b s]; simpl in H; [discriminate|].
    destruct (ascii_dec a b); [subst b | discriminate].
    simpl. f_equal. apply IH, H.
Qed.

Lemma prefix_append_cancel (p q s : string) :
  String.prefix (p ++ q) (p ++ s) = String.prefix q s.
Proof.
  induction p as [|a p IH]; simpl.
  - reflexivity.
  - destruct (ascii_dec a a); [exact IH | congruence].
Qed.

Lemma prefix_append_false (p q s : string) :
  String.prefix p s = false -> String.prefix (p ++ q) s = false.
Proof.
  revert s; induction p as [|a p IH]; intros s H; simpl in *.
  - destruct s; discriminate.
  - destruct s as [|b s]; [reflexivity|]. simpl in *.
    destruct (ascii_dec a b); [apply IH, H | reflexivity].
Qed.

Lemma string_drop_append (p r : string) : string_drop (String.length p) (p ++ r) = r.
Proof. induction p; simpl; auto. Qed.

Lemma append_length (a b : string) :
  String.length (a ++ b) = String.length a + String.length b.
Proof. induction a; simpl; auto. Qed.

Lemma append_assoc (a b c : string) : (a ++ b) ++ c = a ++ b ++ c.
Proof. induction a; simpl; congruence. Qed.

Lemma normalizeRepoUrl_strip (u : string) : normalizeRepoUrl ("git+" ++ u) = u.
Proof.
  unfold normalizeRepoUrl, startsWith, substring_from.
  rewrite prefix_append. apply (string_drop_append "git+").
Qed.

Lemma normalizeRepoUrl_fixed (u : string) :
  startsWith u "git+" = false -> normalizeRepoUrl u = u.
Proof. unfold normalizeRepoUrl. intros ->. reflexivity. Qed.

Lemma normalizeRepoUrl_twice (u : string) :
  normalizeRepoUrl (normalizeRepoUrl u) = normalizeRepoUrl u
  <-> startsWith u "git+git+" = false.
Proof.
  unfold startsWith.
  destruct (String.prefix "git+" u) eqn:P.
  - apply prefix_split in P. simpl String.length in P.
    set (r := string_drop 4 u) in *. rewrite P.
    rewrite normalizeRepoUrl_strip.
    change "git+git+" with ("git+" ++ "git+").
    rewrite prefix_append_cancel.
    unfold normalizeRepoUrl, startsWith, substring_from.
    destruct (String.prefix "git+" r) eqn:Q.
    + split; [|discriminate].
      intros E. apply prefix_split in Q. simpl String.length in Q.
      rewrite E in Q. apply (f_equal String.length) in Q.
      rewrite append_length in Q. simpl in Q. lia.
    + split; reflexivity.
  - rewrite (normalizeRepoUrl_fixed u P).
    change "git+git+" with ("git+" ++ "git+").
    rewrite (prefix_append_false _ "git+" _ P).
    split; [reflexivity|]. intros _. apply normalizeRepoUrl_fixed, P.
Qed.

(** ** The digest pattern *)

Lemma hex_not_space (c : ascii) : is_hex c = true -> is_space c = false.
Proof.
  destruct c as [[] [] [] [] [] [] [] []]; vm_compute; congruence.
Qed.

Lemma strip_prefix_append (p r : string) : strip_prefix p (p ++ r) = Some r.
Proof.
  induction p as [|a p IH]; simpl; [destruct r; reflexivity|].
  rewrite Ascii.eqb_refl. exact IH.
Qed.

Lemma strip_prefix_inv (p s r : string) : strip_prefix p s = Some r -> s = p ++ r.
Proof.
  revert s; induction p as [|a p IH]; intros s H; simpl in *.
  - destruct s; congruence.
  - destruct s as [|b s]; [discriminate|].
    destruct (Ascii.eqb a b) eqn:E; [|discriminate].
    apply Ascii.eqb_eq in E. subst b. f_equal. auto.
Qed.

Lemma skip_spaces_append (ws r : string) :
  all_chars is_space ws = true ->
  match r with String c _ => is_space c = false | EmptyString => True end ->
  skip_spaces (ws ++ r) = r.
Proof.
  intros W R. induction ws as [|c ws IH]; simpl in *.
  - destruct r; [reflexivity|]. simpl. rewrite R. reflexivity.
  - apply andb_true_iff in W as [W1 W2]. rewrite W1. auto.
Qed.

Lemma skip_spaces_inv (s : string) :
  exists ws, s = ws ++ skip_spaces s /\ all_chars is_space ws = true.
Proof.
  induction s as [|c s (ws & E & W)]; simpl.
  - exists "". auto.
  - destruct (is_space c) eqn:C.
    + exists (String c ws). simpl. rewrite C, W. split; [congruence | reflexivity].
    + exists "". auto.
Qed.

Lemma take_hex_append (h post : string) :
  all_chars is_hex h = true -> take_hex (String.length h) (h ++ post) = Some h.
Proof.
  induction h as [|c h IH]; simpl; intros H; [reflexivity|].
  apply andb_true_iff in H as [H1 H2]. rewrite H1, (IH H2). reflexivity.
Qed.

Lemma take_hex_inv (n : nat) (s h : string) :
  take_hex n s = Some h ->
  String.length h = n /\ all_chars is_hex h = true /\ exists post, s = h ++ post.
Proof.
  revert s h; induction n as [|n IH]; intros s h H; simpl in H.
  - injection H as <-. simpl. repeat split. exists s. reflexivity.
  - destruct s as [|c s]; [discriminate|].
    destruct (is_hex c) eqn:C; [|discriminate].
    destruct (take_hex n s) as [h'|] eqn:T; [|discriminate].
    injection H as <-. destruct (IH _ _ T) as (L & A & post & E).
    simpl. rewrite C, A, L. repeat split. exists post. congruence.
Qed.

Lemma shasum_match_here_complete (ws h post : string) :
  ws <> "" -> all_chars is_space ws = true ->
  String.length h = 40 -> all_chars is_hex h = true ->
  shasum_match_here ("shasum:" ++ ws ++ h ++ post) = Some h.
Proof.
  intros N W L H. unfold shasum_match_here.
  rewrite strip_prefix_append.
  destruct ws as [|c ws]; [congruence|]. simpl in W.
  apply andb_true_iff in W as [W1 W2].
  change (String c ws ++ h ++ post) with (String c (ws ++ h ++ post)).
  cbv beta iota.
  rewrite W1, skip_spaces_append; auto.
  - rewrite <- L. apply take_hex_append, H.
  - destruct h as [|d h]; [discriminate|]. simpl in H |- *.
    apply andb_true_iff in H as [H1 _]. apply hex_not_space, H1.
Qed.

Lemma shasum_match_here_sound (s h : string) :
  shasum_match_here s = Some h -> exists ws post, shasum_at "" ws h post s.
Proof.
  unfold shasum_match_here. intros H.
  destruct (strip_prefix "shasum:" s) as [[|c r]|] eqn:P; try discriminate.
  destruct (is_space c) eqn:C; [|discriminate].
  apply strip_prefix_inv in P.
  destruct (skip_spaces_inv r) as (ws & E & W).
  destruct (take_hex_inv _ _ _ H) as (L & A & post & E').
  exists (String c ws), post. unfold shasum_at.
  repeat split; auto.
  - rewrite P. simpl. repeat f_equal. rewrite <- E'. exact E.
  - discriminate.
  - simpl. now rewrite C, W.
Qed.

Lemma shasum_exec_here (s h : string) :
  shasum_match_here s = Some h -> shasum_exec s = Some h.
Proof.
  destruct s as [|c s]; intros E; [vm_compute in E; discriminate|].
  change (match shasum_match_here (String c s) with
          | Some h0 => Some h0
          | None => shasum_exec s
          end = Some h).
  rewrite E. reflexivity.
Qed.

Lemma shasum_exec_next (c : ascii) (s : string) :
  shasum_match_here (String c s) = None -> shasum_exec (String c s) = shasum_exec s.
Proof.
  intros E.
  change (match shasum_match_here (String c s) with
          | Some h0 => Some h0
          | None => shasum_exec s
          end = shasum_exec s).
  rewrite E. reflexivity.
Qed.

Lemma shasum_exec_sound (s h : string) :
  shasum_exec s = Some h -> exists pre ws post, shasum_at pre ws h post s.
Proof.
  induction s as [|c s IH].
  - vm_compute. discriminate.
  - destruct (shasum_match_here (String c s)) eqn:M.
    + rewrite (shasum_exec_here _ _ M). intros [= <-].
      apply shasum_match_here_sound in M as (ws & post & M).
      exists "", ws, post. exact M.
    + rewrite (shasum_exec_next _ _ M).
      intros H. destruct (IH H) as (pre & ws & post & E & R).
      exists (String c pre), ws, post. split; [|exact R]. simpl. now rewrite E.
Qed.

(** The leftmost match wins. *)
Lemma shasum_exec_leftmost (pre ws h post out : string) :
  shasum_at pre ws h post out ->
  (forall pre' ws' h' post', shasum_at pre' ws' h' post' out ->
                             String.length pre <= String.length pre') ->
  shasum_exec out = Some h.
Proof.
  revert out; induction pre as [|c pre IH]; intros out (E & N & W & L & H) Least.
  - subst out. apply shasum_exec_here.
    apply (shasum_match_here_complete ws h post); assumption.
  - subst out.
    change (String c pre ++ "shasum:" ++ ws ++ h ++ post)
      with (String c (pre ++ "shasum:" ++ ws ++ h ++ post)) in *.
    set (tail := pre ++ "shasum:" ++ ws ++ h ++ post) in *.
    destruct (shasum_match_here (String c tail)) as [h0|] eqn:M.
    + apply shasum_match_here_sound in M as (ws0 & post0 & M).
      specialize (Least _ _ _ _ M). simpl in Least. lia.
    + rewrite (shasum_exec_next _ _ M).
      apply IH; [repeat split; auto|].
      intros pre' ws' h' post' (E' & R').
      assert (S (String.length pre) <= String.length (String c pre')); [|simpl in *; lia].
      apply (Least (String c pre') ws' h' post').
      split; [|exact R'].
      change (String c pre' ++ "shasum:" ++ ws' ++ h' ++ post')
        with (String c (pre' ++ "shasum:" ++ ws' ++ h' ++ post')).
      now rewrite E'.
Qed.

Lemma shasum_exec_complete (pre ws h post out : string) :
  shasum_at pre ws h post out -> exists h0, shasum_exec out = Some h0.
Proof.
  revert out; induction pre as [|c pre IH]; intros out (E & N & W & L & H).
  - subst out. exists h. apply shasum_exec_here.
    apply (shasum_match_here_complete ws h post); assumption.
  - subst out.
    change (String c pre ++ "shasum:" ++ ws ++ h ++ post)
      with (String c (pre ++ "shasum:" ++ ws ++ h ++ post)).
    set (tail := pre ++ "shasum:" ++ ws ++ h ++ post).
    destruct (shasum_match_here (String c tail)) as [h0|] eqn:M.
    + exists h0. apply shasum_exec_here, M.
    + rewrite (shasum_exec_next _ _ M). apply IH. repeat split; auto.
Qed.

Lemma shasum_exec_none (out : string) :
  (forall pre ws h post, ~ shasum_at pre ws h post out) <-> shasum_exec out = None.
Proof.
  split.
  - intros No. destruct (shasum_exec out) as [h|] eqn:X; [|reflexivity].
    apply shasum_exec_sound in X as (pre & ws & post & X). destruct (No _ _ _ _ X).
  - intros X pre ws h post A. apply shasum_exec_complete in A as (h0 & A). congruence.
Qed.

Lemma shasum_exec_length (out h : string) :
  shasum_exec out = Some h -> String.length h = 40.
Proof.
  intros X. apply shasum_exec_sound in X as (pre & ws & post & _ & _ & _ & L & _). exact L.
Qed.

(** ** Replay of events *)

Lemma replay_app (l1 l2 : list Event) (w : World) :
  replay (l1 ++ l2) w = replay l2 (replay l1 w).
Proof. apply fold_left_app. Qed.

Lemma trace_replay (l : list Event) (w : World) :
  trace (replay l w) = (trace w ++ l)%list.
Proof.
  revert w; induction l as [|e l IH]; intros w; simpl.
  - now rewrite app_nil_r.
  - change (replay (e :: l) w) with (replay l (apply_event e w)) in *.
    rewrite IH. destruct e; simpl; now rewrite <- app_assoc.
Qed.

Lemma hasFailed_replay (l : list Event) (w : World) :
  hasFailed (replay l w) = hasFailed w || has_fail l.
Proof.
  revert w; induction l as [|e l IH]; intros w.
  - simpl. now rewrite orb_false_r.
  - change (replay (e :: l) w) with (replay l (apply_event e w)).
    rewrite IH. unfold has_fail. simpl existsb.
    destruct e as [| | | |id st msg]; simpl; try reflexivity.
    destruct st; simpl; try reflexivity.
    now rewrite orb_true_r.
Qed.

Lemma has_fail_app (l1 l2 : list Event) :
  has_fail (l1 ++ l2) = has_fail l1 || has_fail l2.
Proof. apply existsb_app. Qed.

(** ** The phases run as specified *)

Import Verifier Engine.

Ltac run_unfold :=
  cbv beta iota zeta delta
      [registry checkout pack compare bind ret throw attempt updateProgress get exec
       createTemp getProp toString process_cwd process_chdir].

(** Without [info.versions] there is no version info. *)
Lemma findVersionInfo_no_versions (env : Env) (info rv : value) :
  truthy (prop info "versions") = false -> truthy (findVersionInfo env info rv) = false.
Proof. unfold findVersionInfo, js_and. cbn [truthy]. intros ->. reflexivity. Qed.

(** Case analysis on the innermost stuck test of the goal. *)
Ltac run_case :=
  match goal with
  | |- context [match ?x with _ => _ end] =>
      lazymatch x with
      | context [match _ with _ => _ end] => fail
      | _ => destruct x eqn:?
      end
  end;
  try match goal with
      | V : truthy (prop ?i "versions") = false |- context [findVersionInfo ?e ?i ?r] =>
          rewrite (findVersionInfo_no_versions e i r V)
      end;
  cbn beta iota zeta delta [negb fst snd trace progress hasFailed hasPrinted cwd].

(** The events a phase has appended to the trace, read off the goal. *)
Ltac events_of t :=
  lazymatch t with
  | (?t' ++ [?e])%list => let l := events_of t' in constr:((l ++ [e])%list)
  | _ => constr:(@nil Event)
  end.

Ltac added_events :=
  match goal with
  | |- exists l, ?T = _ /\ _ =>
      let l := events_of T in
      let l' := eval cbn [app] in l in
      exists l'; split; [repeat rewrite <- app_assoc; cbn [app]; try rewrite app_nil_r; reflexivity|]
  end.

Ltac run_leaf :=
  do 2 eexists; split; cycle 1;
  [ econstructor;
    try (eassumption + reflexivity + (left; reflexivity) + (right; constructor)
         + constructor + (intros ? ?; discriminate)
         + (eapply shasum_exec_length; eassumption))
  | reflexivity ].

Lemma registry_sound (env : Env) (packageName version : string) (w : World) :
  exists l o, registry env packageName version w = (o, replay l w) /\ registry_run l o.
Proof. run_unfold. repeat run_case. all: solve [run_leaf]. Qed.

Lemma checkout_sound (env : Env) (repoUrl gitHead resolvedVersion : value) (w : World) :
  exists l o, checkout env repoUrl gitHead resolvedVersion w = (o, replay l w)
              /\ checkout_run (cwd w) gitHead l o.
Proof. run_unfold. repeat run_case. all: solve [run_leaf]. Qed.

Lemma pack_sound (env : Env) (tempDir : value) (w : World) :
  exists l o, pack env tempDir w = (o, replay l w) /\ pack_run (cwd w) tempDir l o.
Proof. run_unfold. repeat run_case. all: solve [run_leaf]. Qed.

Lemma compare_sound (a b : value) (w : World) :
  exists l, compare a b w = (Ok tt, replay l w) /\ compare_run a b l.
Proof.
  run_unfold. repeat run_case.
  all: eexists; split; cycle 1; [ econstructor; eassumption | reflexivity ].
Qed.

(** None of the phases leaves the process in another directory, unless
    [checkout] throws on a commit reference that is not a string. *)
Lemma registry_run_cwd (l : list Event) (o : Outcome RegistryResult) (w : World) :
  registry_run l o -> cwd (replay l w) = cwd w.
Proof. destruct 1; reflexivity. Qed.

Lemma checkout_run_cwd (g : value) (l : list Event) (c : CheckoutResult) (w : World) :
  checkout_run (cwd w) g l (Ok c) -> cwd (replay l w) = cwd w.
Proof.
  inversion 1; subst; try reflexivity;
    repeat match goal with
           | H : _ \/ _ |- _ => destruct H
           | H : fetches _ |- _ => destruct H
           end; subst; reflexivity.
Qed.

Lemma pack_run_cwd (d : value) (l : list Event) (o : Outcome PackResult) (w : World) :
  pack_run (cwd w) d l o -> cwd (replay l w) = cwd w.
Proof. destruct 1; reflexivity. Qed.

Lemma verify_sound (env : Env) (packageName version : string) (w : World) :
  exists l o, verify env packageName version w = (o, replay l (reset_world w))
              /\ verify_run env packageName version (reset_world w) l o.
Proof.
  set (w0 := reset_world w).
  assert (F0 : hasFailed w0 = false) by reflexivity.
  unfold verify. unfold bind at 1. unfold reset. cbv beta iota.
  change (mkWorld createProgress false false (cwd w) (trace w)) with w0.
  destruct (registry_sound env packageName version w0) as (l1 & o1 & E1 & R1).
  unfold bind at 1. rewrite E1.
  destruct o1 as [r|e]; [|exists l1, (Throw e); split; [reflexivity | now constructor]].
  unfold bind at 1, getHasFailed at 1. cbv beta iota.
  rewrite hasFailed_replay, F0.
  destruct (has_fail l1) eqn:F1; cbv beta iota delta [orb];
    [exists l1, (Ok false); split; [reflexivity | eapply vr_registry_fail; eauto]|].
  assert (C1 : cwd (replay l1 w0) = cwd w0) by apply (registry_run_cwd _ _ w0 R1).
  destruct (checkout_sound env (repoUrl r) (gitHead r) (resolvedVersion r) (replay l1 w0))
    as (l2 & o2 & E2 & R2).
  rewrite <- replay_app in E2.
  unfold bind at 1. rewrite E2.
  destruct o2 as [c|e];
    [|exists (l1 ++ l2)%list, (Throw e); split;
      [reflexivity | rewrite C1 in R2; eapply vr_checkout_throw; eauto]].
  unfold bind at 1, getHasFailed at 1. cbv beta iota.
  rewrite hasFailed_replay, F0, has_fail_app, F1.
  assert (C2 : cwd (replay (l1 ++ l2) w0) = cwd w0).
  { rewrite replay_app, <- C1. eapply checkout_run_cwd; eauto. }
  rewrite C1 in R2.
  destruct (has_fail l2) eqn:F2; cbv beta iota delta [orb];
    [exists (l1 ++ l2)%list, (Ok false); split;
     [reflexivity | eapply vr_checkout_fail; eauto]|].
  destruct (pack_sound env (tempDir c) (replay (l1 ++ l2) w0)) as (l3 & o3 & E3 & R3).
  rewrite C2 in R3. rewrite <- replay_app, <- app_assoc in E3.
  unfold bind at 1. rewrite E3.
  destruct o3 as [p|e];
    [|exists (l1 ++ l2 ++ l3)%list, (Throw e); split;
      [reflexivity | eapply vr_pack_throw; eauto]].
  unfold bind at 1, getHasFailed at 1. cbv beta iota.
  rewrite hasFailed_replay, F0, !has_fail_app, F1, F2.
  destruct (has_fail l3) eqn:F3; cbv beta iota delta [orb];
    [exists (l1 ++ l2 ++ l3)%list, (Ok false); split;
     [reflexivity | eapply vr_pack_fail; eauto]|].
  destruct (compare_sound (shasum r) (remoteShasum p) (replay (l1 ++ l2 ++ l3) w0))
    as (l4 & E4 & R4).
  unfold bind at 1. rewrite E4. rewrite <- replay_app, <- !app_assoc.
  unfold bind at 1, getHasFailed at 1. cbv beta iota.
  rewrite hasFailed_replay, F0, !has_fail_app, F1, F2, F3.
  exists (l1 ++ l2 ++ l3 ++ l4)%list, (Ok (negb (has_fail l4))). split.
  - destruct (has_fail l4); reflexivity.
  - eapply vr_compare; eauto.
Qed.

(** ** Status histories of the runs *)

Lemma progress_after_app (p : VerifyProgress) (l1 l2 : list Event) :
  progress_after p (l1 ++ l2) = progress_after (progress_after p l1) l2.
Proof. apply fold_left_app. Qed.

Lemma progress_replay (l : list Event) (w : World) :
  progress (replay l w) = progress_after (progress w) l.
Proof.
  revert w; induction l as [|e l IH]; intros w; [reflexivity|].
  change (replay (e :: l) w) with (replay l (apply_event e w)).
  change (progress_after (progress w) (e :: l))
    with (progress_after (progress_after (progress w) [e]) l).
  rewrite IH. destruct e; reflexivity.
Qed.

Lemma progress_after_chdirs (p : VerifyProgress) (l : list Event) :
  forallb is_chdir l = true -> progress_after p l = p.
Proof.
  revert p; induction l as [|e l IH]; intros p H; [reflexivity|].
  simpl in H. apply andb_true_iff in H as [H1 H2].
  change (progress_after p (e :: l)) with (progress_after (progress_after p [e]) l).
  rewrite (IH _ H2). destruct e; try discriminate. reflexivity.
Qed.

Lemma transitions_ok_moves ok (p : VerifyProgress) (l : list Event) id old new :
  transitions_ok ok p l = true -> moves p l id old new -> ok id old new = true.
Proof.
  intros T (pre & msg & post & E & O). subst l old.
  revert p T; induction pre as [|e pre IH]; intros p T.
  - simpl in T. apply andb_true_iff in T as [T _]. exact T.
  - change ((e :: pre) ++ EUpdate id new msg :: post)%list
      with (e :: (pre ++ EUpdate id new msg :: post))%list in T.
    simpl transitions_ok in T. apply andb_true_iff in T as [_ T].
    change (progress_after p (e :: pre)) with (progress_after (progress_after p [e]) pre).
    apply IH, T.
Qed.

Lemma fail_halts_split (p : VerifyProgress) (pre post : list Event) id m :
  fail_halts p (pre ++ EUpdate id Fail m :: post) = true ->
  forallb is_chdir post = true
  /\ later_pending id (progress_after p (pre ++ [EUpdate id Fail m])) = true.
Proof.
  revert p; induction pre as [|e pre IH]; intros p T.
  - simpl in T. apply andb_true_iff in T as [T _].
    apply andb_true_iff in T as [T1 T2]. split; assumption.
  - change ((e :: pre) ++ EUpdate id Fail m :: post)%list
      with (e :: (pre ++ EUpdate id Fail m :: post))%list in T.
    simpl fail_halts in T. apply andb_true_iff in T as [_ T].
    change (progress_after p ((e :: pre) ++ [EUpdate id Fail m]))
      with (progress_after (progress_after p [e]) (pre ++ [EUpdate id Fail m])).
    apply IH, T.
Qed.

Lemma later_pending_spec id (p : VerifyProgress) (j : StepId) :
  later_pending id p = true -> step_index id < step_index j -> status_of p j = Pending.
Proof.
  unfold later_pending. rewrite forallb_forall. intros H L.
  assert (I : In j all_steps) by (destruct j; simpl; tauto).
  specialize (H j I). apply Nat.ltb_lt in L. rewrite L in H.
  destruct (status_of p j); congruence.
Qed.

(** Inversion of a run of [verify] down to its list of events; a phase
    whose events are known is checked against the fail flag at once. *)
Ltac explicit_list l :=
  lazymatch l with
  | nil => idtac
  | _ :: ?t => explicit_list t
  | (?a ++ ?b)%list => explicit_list a; explicit_list b
  end.

Ltac invert_runs :=
  repeat match goal with
         | H : _ = (_, replay _ _) |- _ => clear H
         | H : has_fail ?l = _ |- _ =>
             explicit_list l; cbn in H; first [discriminate H | clear H]
         | H : fetches _ |- _ => inversion H; clear H; subst
         | H : _ = [] \/ fetches _ |- _ => destruct H; subst
         | H : registry_run _ _ |- _ => inversion H; clear H; subst
         | H : checkout_run _ _ _ _ |- _ => inversion H; clear H; subst
         | H : pack_run _ _ _ _ |- _ => inversion H; clear H; subst
         | H : compare_run _ _ _ |- _ => inversion H; clear H; subst
         | H : verify_run _ _ _ _ _ _ |- _ => inversion H; clear H; subst
         end.

Lemma verify_run_transitions env packageName version w0 l o :
  verify_run env packageName version w0 l o ->
  transitions_ok forward_or_pack_waits createProgress l = true.
Proof. intros H. invert_runs; reflexivity. Qed.

Lemma verify_run_fail_halts env packageName version w0 l o :
  verify_run env packageName version w0 l o ->
  fail_halts createProgress l = true.
Proof. intros H. invert_runs; reflexivity. Qed.

Lemma verify_run_result env packageName version w0 l o :
  verify_run env packageName version w0 l o ->
  has_fail l = true -> o = Ok false.
Proof. intros H. invert_runs; intros F; first [reflexivity | discriminate F]. Qed.

Lemma verify_events_sound (env : Env) (packageName version : string) (w : World) :
  exists o,
    verify env packageName version w
    = (o, replay (verify_events env packageName version w) (reset_world w))
    /\ verify_run env packageName version (reset_world w)
                  (verify_events env packageName version w) o.
Proof.
  destruct (verify_sound env packageName version w) as (l & o & E & R).
  assert (V : verify_events env packageName version w = l).
  { unfold verify_events. rewrite E. cbn [snd]. rewrite trace_replay.
    cbn [reset_world trace]. rewrite skipn_app, skipn_all, Nat.sub_diag. reflexivity. }
  rewrite V. exists o. split; assumption.
Qed.

(** ** Monotonicity of the statuses *)

(** C2, as amended: in every run, every update of a step moves its status
    forward in the order Pending, Working, final status (Pass, Fail, Warn
    or Skipped; a final status may be followed by another one), except
    that the pack step goes back from Working to Pending while it waits
    for the dependencies. *)
Theorem statuses_move_forward_or_pack_waits
        (env : Env) (packageName version : string) (w : World)
        (id : StepId) (old new : Status) :
  moves createProgress (verify_events env packageName version w) id old new ->
  rank old <= rank new \/ (id = Pack /\ old = Working /\ new = Pending).
Proof.
  intros Mv.
  destruct (verify_events_sound env packageName version w) as (o & _ & R).
  apply verify_run_transitions in R.
  assert (T := transitions_ok_moves _ _ _ _ _ _ R Mv).
  unfold forward_or_pack_waits, forward in T.
  apply orb_true_iff in T as [T|T].
  - left. apply Nat.leb_le, T.
  - right. destruct id, old, new; try discriminate T. repeat split.
Qed.

Lemma statuses_move_forward_or_pack_waits_witness :
  moves createProgress (verify_events install_env "pkg" "" example_world)
        Checkout Working Pass
  /\ (rank Working <= rank Pass \/ (Checkout = Pack /\ Working = Working /\ Pass = Pending)).
Proof.
  assert (Mv : moves createProgress (verify_events install_env "pkg" "" example_world)
                     Checkout Working Pass).
  { exists (firstn 16 (verify_events install_env "pkg" "" example_world)), None,
           (skipn 17 (verify_events install_env "pkg" "" example_world)).
    split; vm_compute; reflexivity. }
  split; [exact Mv|].
  exact (statuses_move_forward_or_pack_waits install_env "pkg" "" example_world
                                             Checkout Working Pass Mv).
Defined.

(** C2, as stated, fails: the pack step is set back from Working to
    Pending. *)
Lemma pack_goes_back_to_pending :
  exists id old new,
    moves createProgress (verify_events install_env "pkg" "" example_world) id old new
    /\ rank new < rank old.
Proof.
  exists Pack, Working, Pending. split; [|simpl; lia].
  exists (firstn 20 (verify_events install_env "pkg" "" example_world)),
         (Some "Waiting for dependencies"),
         (skipn 21 (verify_events install_env "pkg" "" example_world)).
  split; vm_compute; reflexivity.
Qed.

(** ** The first failure halts the run *)

(** C3: in every run, once a step is set to Fail, [verify] returns false,
    nothing follows but the restoration of the working directory (no
    update, no request, no command), and every step ordered after the
    failed one is Pending at that point and in the final table. *)
Theorem first_fail_halts_the_run
        (env : Env) (packageName version : string) (w : World)
        (pre post : list Event) (id : StepId) (m : option string) :
  verify_events env packageName version w = (pre ++ EUpdate id Fail m :: post)%list ->
  fst (verify env packageName version w) = Ok false
  /\ (forall e, In e post -> exists d, e = EChdir d)
  /\ (forall j, step_index id < step_index j ->
                status_of (progress_after createProgress (pre ++ [EUpdate id Fail m])) j = Pending
                /\ status_of (progress (snd (verify env packageName version w))) j = Pending).
Proof.
  intros E.
  destruct (verify_events_sound env packageName version w) as (o & V & R).
  rewrite E in V, R.
  assert (F : has_fail (pre ++ EUpdate id Fail m :: post) = true).
  { rewrite has_fail_app. unfold has_fail at 2. simpl. apply orb_true_r. }
  rewrite (verify_run_result _ _ _ _ _ _ R F) in V.
  apply verify_run_fail_halts, fail_halts_split in R. destruct R as [Hc Hp].
  rewrite V. cbn [fst snd]. split; [reflexivity|]. split.
  - intros e I. rewrite forallb_forall in Hc. specialize (Hc e I).
    destruct e; try discriminate Hc. eauto.
  - intros j L. split; [exact (later_pending_spec _ _ j Hp L)|].
    rewrite progress_replay. cbn [reset_world progress].
    change (pre ++ EUpdate id Fail m :: post)%list
      with (pre ++ [EUpdate id Fail m] ++ post)%list.
    rewrite app_assoc, progress_after_app, (progress_after_chdirs _ _ Hc).
    exact (later_pending_spec _ _ j Hp L).
Qed.

Lemma first_fail_halts_the_run_witness :
  verify_events svn_env "pkg" "1.2.3" example_world
  = ([EUpdate Registry Working None; EGet "https://registry.npmjs.com/pkg";
      EUpdate Registry Pass None; EUpdate Repo Working None]
       ++ EUpdate Repo Fail
            (Some "Non-git (svn) repository specified for version 1.2.3") :: [])%list
  /\ fst (verify svn_env "pkg" "1.2.3" example_world) = Ok false
  /\ status_of (progress (snd (verify svn_env "pkg" "1.2.3" example_world))) Checkout = Pending.
Proof.
  assert (E : verify_events svn_env "pkg" "1.2.3" example_world
              = ([EUpdate Registry Working None; EGet "https://registry.npmjs.com/pkg";
                  EUpdate Registry Pass None; EUpdate Repo Working None]
                   ++ EUpdate Repo Fail
                        (Some "Non-git (svn) repository specified for version 1.2.3")
                   :: [])%list) by (vm_compute; reflexivity).
  destruct (first_fail_halts_the_run svn_env "pkg" "1.2.3" example_world _ _ _ _ E)
    as (R & _ & P).
  split; [exact E|]. split; [exact R|].
  apply (P Checkout). simpl. lia.
Defined.

(** ** The working directory *)

(** C5: [checkout], called with a commit reference of its declared type
    (a string, or a falsy value such as [undefined]), and [pack], called
    with a directory name, return on every path (success, any Fail
    branch, a fault while parsing) with the working directory they were
    started in. *)
Theorem phases_restore_cwd
        (env : Env) (repoUrl gitHead resolvedVersion : value) (tempDir : string) (w : World) :
  (truthy gitHead = true -> exists g, gitHead = VStr g) ->
  (exists c, fst (checkout env repoUrl gitHead resolvedVersion w) = Ok c)
  /\ cwd (snd (checkout env repoUrl gitHead resolvedVersion w)) = cwd w
  /\ (exists p, fst (pack env (VStr tempDir) w) = Ok p)
  /\ cwd (snd (pack env (VStr tempDir) w)) = cwd w.
Proof.
  intros G.
  destruct (checkout_sound env repoUrl gitHead resolvedVersion w) as (l & o & E & R).
  destruct (pack_sound env (VStr tempDir) w) as (l' & o' & E' & R').
  rewrite E, E'. cbn [fst snd].
  assert (O : exists c, o = Ok c).
  { destruct o as [c|e]; [eauto|]. inversion R; subst.
    match goal with
    | T : truthy gitHead = true, N : forall g, gitHead <> VStr g |- _ =>
        destruct (G T) as (g & ->); destruct (N g eq_refl)
    end. }
  destruct O as (c & ->).
  assert (O' : exists p, o' = Ok p).
  { destruct o' as [p|e]; [eauto|]. inversion R'; subst.
    match goal with N : forall d, VStr tempDir <> VStr d |- _ => destruct (N tempDir eq_refl) end. }
  destruct O' as (p & ->).
  split; [eauto|]. split; [eapply checkout_run_cwd; eauto|].
  split; [eauto|]. eapply pack_run_cwd; eauto.
Qed.

Lemma phases_restore_cwd_witness :
  cwd (snd (checkout no_commit_env (VStr "https://github.com/o/r.git") (VStr "abc1234def")
                     (VStr "1.2.3") example_world)) = "/home/user"
  /\ cwd (snd (pack no_commit_env (VStr "/tmp/tbv-1") example_world)) = "/home/user".
Proof.
  destruct (phases_restore_cwd no_commit_env (VStr "https://github.com/o/r.git")
                               (VStr "abc1234def") (VStr "1.2.3") "/tmp/tbv-1" example_world)
    as (_ & C & _ & P).
  - intros _. exists "abc1234def". reflexivity.
  - split; [exact C | exact P].
Defined.

Lemma verify_run_cwd env packageName version w0 l o :
  verify_run env packageName version w0 l o -> cwd (replay l w0) = cwd w0.
Proof.
  intros H. invert_runs;
    first [ reflexivity
          | match goal with T : truthy _ = true |- _ => cbn in T; discriminate T end ].
Qed.

(** X1: every run of [verify] ends in the directory it was started in,
    whatever its outcome: true, false or an exception. *)
Theorem verify_restores_cwd (env : Env) (packageName version : string) (w : World) :
  cwd (snd (verify env packageName version w)) = cwd w.
Proof.
  destruct (verify_events_sound env packageName version w) as (o & V & R).
  rewrite V. cbn [snd]. exact (verify_run_cwd _ _ _ _ _ _ R).
Qed.

(** ** The fetch strategy of checkout *)

Lemma execs_app (l1 l2 : list Event) : execs (l1 ++ l2) = (execs l1 ++ execs l2)%list.
Proof. apply flat_map_app. Qed.

Lemma snoc2 {A} (l : list A) (a b : A) (r : list A) :
  (l ++ a :: b :: r = (l ++ [a]) ++ b :: r)%list.
Proof. now rewrite <- app_assoc. Qed.

Ltac run_simpl :=
  cbn beta iota zeta delta [negb fst snd trace progress hasFailed hasPrinted cwd].

Ltac execs_done :=
  cbn [trace]; repeat rewrite execs_app; cbn [execs flat_map app];
  repeat rewrite app_nil_r; repeat rewrite <- app_assoc; reflexivity.

(** C6: when gitHead is absent (falsy) and the repository has been
    initialised, [checkout] first fetches [tags/v{resolvedVersion}] and,
    when that succeeds, fetches nothing else and returns that refspec;
    only when it fails does it fetch [tags/{resolvedVersion}], returning
    that refspec on success; when both fail the checkout step is Fail with
    a message naming both refs, the directory is restored and the result
    is [{tempDir}]. *)
Theorem checkout_falls_back_to_tags
        (env : Env) (repoUrl gitHead resolvedVersion : value) (w : World)
        (d o1 o2 : string) :
  let rv := toStr resolvedVersion in
  let remote := "git remote add origin " ++ dquote ++ toStr repoUrl ++ dquote in
  let fetch_v := "git fetch --depth 1 origin tags/v" ++ rv in
  let fetch_p := "git fetch --depth 1 origin tags/" ++ rv in
  let t0 := (trace w ++ [EUpdate Checkout Working None])%list in
  let t1 := (t0 ++ [ECreateTemp; EChdir d; EExec "git init"; EExec remote])%list in
  let run := checkout env repoUrl gitHead resolvedVersion w in
  truthy gitHead = false ->
  createTemp_resp env t0 = inl d ->
  exec_resp env (t0 ++ [ECreateTemp; EChdir d]) "git init" = inl o1 ->
  exec_resp env (t0 ++ [ECreateTemp; EChdir d; EExec "git init"]) remote = inl o2 ->
  (forall o, exec_resp env t1 fetch_v = inl o ->
     exists c, fst run = Ok c /\ refspec c = VStr ("tags/v" ++ rv)
               /\ execs (trace (snd run))
                  = (execs (trace w)
                       ++ ["git init"; remote; fetch_v; "git checkout FETCH_HEAD"])%list)
  /\ (forall e o, exec_resp env t1 fetch_v = inr e ->
        exec_resp env (t1 ++ [EExec fetch_v]) fetch_p = inl o ->
     exists c, fst run = Ok c /\ refspec c = VStr ("tags/" ++ rv)
               /\ execs (trace (snd run))
                  = (execs (trace w)
                       ++ ["git init"; remote; fetch_v; fetch_p;
                           "git checkout FETCH_HEAD"])%list)
  /\ (forall e e', exec_resp env t1 fetch_v = inr e ->
        exec_resp env (t1 ++ [EExec fetch_v]) fetch_p = inr e' ->
        fst run = Ok (mkCheckoutResult (VStr d) VUndefined)
        /\ step_of (progress (snd run)) Checkout
           = mkStep Fail (title (step_of (progress w) Checkout))
                    (Some ("Unable fetch tag from remote (tags/" ++ rv
                             ++ " or tags/v" ++ rv ++ ")"))
        /\ hasFailed (snd run) = true
        /\ cwd (snd run) = cwd w
        /\ execs (trace (snd run))
           = (execs (trace w) ++ ["git init"; remote; fetch_v; fetch_p])%list).
Proof.
  intros rv remote fetch_v fetch_p t0 t1 run G T I R.
  subst t1 t0. repeat rewrite snoc2 in *.
  subst run. run_unfold. run_simpl.
  rewrite T. run_simpl. rewrite I. run_simpl. fold remote. rewrite R. run_simpl.
  rewrite G. run_simpl. fold rv. fold fetch_v. fold fetch_p.
  split; [|split].
  - intros o F. rewrite F. run_simpl.
    run_case; (eexists; split; [reflexivity|]; split; [reflexivity | execs_done]).
  - intros e o F P. rewrite F. run_simpl. rewrite P. run_simpl.
    run_case; (eexists; split; [reflexivity|]; split; [reflexivity | execs_done]).
  - intros e e' F P. rewrite F. run_simpl. rewrite P. run_simpl.
    repeat (split; [reflexivity|]). execs_done.
Qed.

Lemma checkout_falls_back_to_tags_witness :
  exists c,
    fst (checkout plain_tag_env (VStr "https://github.com/o/r.git") VUndefined
                  (VStr "1.2.3") example_world) = Ok c
    /\ refspec c = VStr "tags/1.2.3"
    /\ execs (trace (snd (checkout plain_tag_env (VStr "https://github.com/o/r.git")
                                   VUndefined (VStr "1.2.3") example_world)))
       = ["git init";
          "git remote add origin " ++ dquote ++ "https://github.com/o/r.git" ++ dquote;
          "git fetch --depth 1 origin tags/v1.2.3";
          "git fetch --depth 1 origin tags/1.2.3";
          "git checkout FETCH_HEAD"].
Proof.
  destruct (checkout_falls_back_to_tags
              plain_tag_env (VStr "https://github.com/o/r.git") VUndefined (VStr "1.2.3")
              example_world "/tmp/tbv-1" "" ""
              eq_refl eq_refl eq_refl eq_refl) as (_ & F & _).
  exact (F (Rejected "Error: Command failed") "" eq_refl eq_refl).
Defined.

(** ** Digest extraction *)

Lemma shasum_exec_sound_leftmost (s h : string) :
  shasum_exec s = Some h ->
  exists pre ws post, shasum_at pre ws h post s /\ leftmost pre s.
Proof.
  induction s as [|c s IH].
  - vm_compute. discriminate.
  - destruct (shasum_match_here (String c s)) eqn:M.
    + rewrite (shasum_exec_here _ _ M). intros [= <-].
      apply shasum_match_here_sound in M as (ws & post & M).
      exists "", ws, post. split; [exact M|]. intros ? ? ? ? _. simpl. lia.
    + rewrite (shasum_exec_next _ _ M).
      intros H. destruct (IH H) as (pre & ws & post & (E & R) & L).
      exists (String c pre), ws, post. split.
      * split; [|exact R]. simpl. now rewrite E.
      * intros pre' ws' h' post' (E' & N' & W' & L' & H').
        destruct pre' as [|c' pre'].
        -- change (String c s = "shasum:" ++ ws' ++ h' ++ post') in E'.
           rewrite E' in M.
           rewrite (shasum_match_here_complete ws' h' post' N' W' L' H') in M.
           discriminate.
        -- simpl in E'. injection E' as -> E'. simpl.
           apply le_n_S, (L pre' ws' h' post'). repeat split; assumption.
Qed.

Lemma pack_parses_output (env : Env) (tempDir : string) (w : World) (out : string) :
  pack_output env tempDir w = Some out ->
  fst (pack env (VStr tempDir) w)
  = match shasum_exec out with
    | Some h => Ok (mkPackResult (VStr h))
    | None => Ok (mkPackResult VUndefined)
    end
  /\ match shasum_exec out with
     | Some h => status_of (progress (snd (pack env (VStr tempDir) w))) Pack = Pass
     | None => step_of (progress (snd (pack env (VStr tempDir) w))) Pack
               = mkStep Fail (title (step_of (progress w) Pack))
                        (Some "Error parsing shasum from pack output")
               /\ hasFailed (snd (pack env (VStr tempDir) w)) = true
     end.
Proof.
  intros O. revert O. unfold pack_output. cbv zeta. repeat rewrite snoc2.
  run_unfold. run_simpl.
  repeat run_case; intros O; try discriminate O; injection O as ->;
    repeat split; try reflexivity; try congruence.
Qed.

(** C7: for the output [out] of the pack command, when [out] contains a
    match of [shasum:\s+([0-9a-f]{40})], [pack] returns as remoteShasum
    the 40 hex digits of the leftmost match and marks the step Pass; when
    [out] contains no match, the pack step is Fail with the message
    "Error parsing shasum from pack output" and [pack] returns [{}]; and
    one of the two is always the case. *)
Theorem digest_extraction_is_total
        (env : Env) (tempDir : string) (w : World) (out : string) :
  pack_output env tempDir w = Some out ->
  (forall pre ws h post,
      shasum_at pre ws h post out -> leftmost pre out ->
      fst (pack env (VStr tempDir) w) = Ok (mkPackResult (VStr h))
      /\ status_of (progress (snd (pack env (VStr tempDir) w))) Pack = Pass)
  /\ ((forall pre ws h post, ~ shasum_at pre ws h post out) ->
      fst (pack env (VStr tempDir) w) = Ok (mkPackResult VUndefined)
      /\ step_of (progress (snd (pack env (VStr tempDir) w))) Pack
         = mkStep Fail (title (step_of (progress w) Pack))
                  (Some "Error parsing shasum from pack output")
      /\ hasFailed (snd (pack env (VStr tempDir) w)) = true)
  /\ ((exists pre ws h post, shasum_at pre ws h post out /\ leftmost pre out)
      \/ (forall pre ws h post, ~ shasum_at pre ws h post out)).
Proof.
  intros O. destruct (pack_parses_output env tempDir w out O) as [P1 P2].
  split; [|split].
  - intros pre ws h post A L.
    rewrite (shasum_exec_leftmost pre ws h post out A L) in P1, P2. split; assumption.
  - intros No. apply shasum_exec_none in No. rewrite No in P1, P2.
    destruct P2. repeat split; assumption.
  - destruct (shasum_exec out) as [h|] eqn:X.
    + left. apply shasum_exec_sound_leftmost in X as (pre & ws & post & A & L).
      exists pre, ws, h, post. split; assumption.
    + right. apply shasum_exec_none, X.
Qed.

Lemma digest_extraction_is_total_witness :
  pack_output install_env "/tmp/tbv-1" example_world = Some ("shasum: " ++ example_sha)
  /\ fst (pack install_env (VStr "/tmp/tbv-1") example_world)
     = Ok (mkPackResult (VStr example_sha)).
Proof.
  destruct (digest_extraction_is_total install_env "/tmp/tbv-1" example_world
                                       ("shasum: " ++ example_sha) eq_refl) as (H & _).
  split; [reflexivity|].
  apply (H "" " " example_sha "").
  - unfold shasum_at. repeat split. discriminate.
  - intros pre' ws' h' post' _. apply Nat.le_0_l.
Defined.

(** The pattern is searched anywhere in the output, and more than one
    space may follow the colon. *)
Example shasum_exec_in_notice :
  shasum_exec ("npm notice shasum:        " ++ example_sha ++ " npm notice integrity")
  = Some example_sha.
Proof. reflexivity. Qed.

Example shasum_exec_uppercase :
  shasum_exec "shasum: DEADBEEFDEADBEEFDEADBEEFDEADBEEFDEADBEEF" = None.
Proof. reflexivity. Qed.

(** ** The registry phase on a document with a git repository *)

Lemma replay_inj (l1 l2 : list Event) (w : World) :
  replay l1 w = replay l2 w -> l1 = l2.
Proof.
  intros E. apply (f_equal trace) in E. rewrite !trace_replay in E.
  exact (app_inv_head _ _ _ E).
Qed.

Lemma registry_passes (env : Env) (packageName version : string) (w : World)
      (info : value) (u : string) :
  get_resp env (trace w ++ [EUpdate Registry Working None])
           ("https://registry.npmjs.com/" ++ packageName) = inl info ->
  reaches_gitHead env info version u ->
  let rv := resolveVersion env info version in
  let vi := findVersionInfo env info rv in
  registry env packageName version w
  = (Ok (mkRegistryResult rv (VStr (normalizeRepoUrl u)) (registryShasum vi) VUndefined),
     replay ([EUpdate Registry Working None;
              EGet ("https://registry.npmjs.com/" ++ packageName);
              EUpdate Registry Pass None; EUpdate Repo Working None;
              EUpdate Repo Pass None; EUpdate GitHead Working None]
               ++ (if truthy (prop vi "gitHead") then []
                   else [EUpdate GitHead Warn
                           (Some ("GitHead is not specified for version " ++ toStr rv)%string)])
               ++ [EUpdate GitHead Pass None])%list w).
Proof.
  intros G (N & V & S & I & R & T & U & E) rv vi. subst rv vi.
  run_unfold. run_simpl. rewrite G, N, V. run_simpl.
  destruct (truthy (prop info "versions")) eqn:Vs;
    [|rewrite (findVersionInfo_no_versions _ _ _ Vs) in I; discriminate I].
  rewrite S. run_simpl. rewrite I. run_simpl.
  rewrite R. run_simpl. rewrite T. run_simpl. rewrite U.
  assert (X : truthy (VStr u) = true).
  { simpl. destruct u; [congruence | reflexivity]. }
  rewrite X. run_simpl.
  destruct (truthy (prop _ "gitHead")); reflexivity.
Qed.

Lemma checkout_run_starts (c0 : string) (g : value) (l : list Event)
      (o : Outcome CheckoutResult) :
  checkout_run c0 g l o -> exists rest, l = EUpdate Checkout Working None :: rest.
Proof. destruct 1; simpl; eauto. Qed.

(** C8: when the registry document gives the resolved version a git
    repository (so that the gitHead step is reached: the resolved version
    converts to a string, what [versions] gives for it is truthy, and its
    repository has the type "git" and a non-empty string as URL), the
    events of the registry phase end with gitHead set to Working, then to
    Warn and to Pass when [versionInfo.gitHead] is missing (falsy), and
    to Pass at once when it is present; the fail flag is not set after
    the phase, and the next event of the run is the start of the checkout
    phase. *)
Theorem missing_gitHead_warns_and_passes
        (env : Env) (packageName version : string) (w : World)
        (info : value) (u : string) :
  get_resp env (trace w ++ [EUpdate Registry Working None])
           ("https://registry.npmjs.com/" ++ packageName) = inl info ->
  reaches_gitHead env info version u ->
  let rv := resolveVersion env info version in
  let vi := findVersionInfo env info rv in
  let gitHead_updates :=
    if truthy (prop vi "gitHead")
    then [EUpdate GitHead Working None; EUpdate GitHead Pass None]
    else [EUpdate GitHead Working None;
          EUpdate GitHead Warn (Some ("GitHead is not specified for version " ++ toStr rv)%string);
          EUpdate GitHead Pass None] in
  let registry_events :=
    ([EUpdate Registry Working None; EGet ("https://registry.npmjs.com/" ++ packageName);
      EUpdate Registry Pass None; EUpdate Repo Working None; EUpdate Repo Pass None]
       ++ gitHead_updates)%list in
  snd (registry env packageName version (reset_world w))
  = replay registry_events (reset_world w)
  /\ hasFailed (snd (registry env packageName version (reset_world w))) = false
  /\ exists rest,
      verify_events env packageName version w
      = (registry_events ++ EUpdate Checkout Working None :: rest)%list.
Proof.
  intros G Rg rv vi gitHead_updates registry_events.
  assert (P := registry_passes env packageName version (reset_world w) info u G Rg).
  cbv zeta in P. fold rv vi in P.
  assert (L : ([EUpdate Registry Working None;
                EGet ("https://registry.npmjs.com/" ++ packageName);
                EUpdate Registry Pass None; EUpdate Repo Working None;
                EUpdate Repo Pass None; EUpdate GitHead Working None]
                 ++ (if truthy (prop vi "gitHead") then []
                     else [EUpdate GitHead Warn
                             (Some ("GitHead is not specified for version " ++ toStr rv)%string)])
                 ++ [EUpdate GitHead Pass None])%list = registry_events).
  { subst registry_events gitHead_updates.
    destruct (truthy (prop vi "gitHead")); reflexivity. }
  rewrite L in P. rewrite P. cbn [snd].
  assert (F : has_fail registry_events = false).
  { subst registry_events gitHead_updates.
    destruct (truthy (prop vi "gitHead")); reflexivity. }
  split; [reflexivity|]. split; [rewrite hasFailed_replay, F; reflexivity|].
  clearbody registry_events. clear L.
  destruct (verify_events_sound env packageName version w) as (o & _ & R).
  inversion R; subst;
    match goal with
    | E : registry _ _ _ _ = _ |- _ =>
        rewrite P in E;
        pose proof (f_equal fst E) as E1; pose proof (f_equal snd E) as E2;
        cbn [fst snd] in E1, E2; clear E
    end;
    try discriminate E1;
    apply replay_inj in E2; subst;
    try congruence;
    match goal with
    | C : checkout_run _ _ _ _ |- _ =>
        destruct (checkout_run_starts _ _ _ _ C) as (rest & ->)
    end;
    eexists; reflexivity.
Qed.

Lemma missing_gitHead_warns_and_passes_witness :
  exists rest,
    verify_events install_env "pkg" "" example_world
    = ([EUpdate Registry Working None; EGet "https://registry.npmjs.com/pkg";
        EUpdate Registry Pass None; EUpdate Repo Working None; EUpdate Repo Pass None;
        EUpdate GitHead Working None;
        EUpdate GitHead Warn (Some "GitHead is not specified for version 1.2.3");
        EUpdate GitHead Pass None]
         ++ EUpdate Checkout Working None :: rest)%list.
Proof.
  destruct (missing_gitHead_warns_and_passes
              install_env "pkg" "" example_world
              (example_info (VObj [("repository", git_repository);
                                   ("dist", VObj [("shasum", VStr example_sha)])]))
              "git+https://github.com/o/r.git" eq_refl) as (_ & _ & rest & E).
  - unfold reaches_gitHead. repeat split. discriminate.
  - exists rest. exact E.
Defined.

(** ** The registry phase returns no commit *)

Lemma registry_result (env : Env) (packageName version : string) (w w' : World)
      (info : value) (r : RegistryResult) :
  get_resp env (trace w ++ [EUpdate Registry Working None])
           ("https://registry.npmjs.com/" ++ packageName) = inl info ->
  registry env packageName version w = (Ok r, w') ->
  hasFailed w = false -> hasFailed w' = false ->
  resolvedVersion r = resolveVersion env info version
  /\ shasum r = registryShasum (findVersionInfo env info (resolveVersion env info version))
  /\ gitHead r = VUndefined.
Proof.
  intros G. run_unfold. run_simpl. rewrite G.
  repeat run_case; intros E; try discriminate E;
    injection E as <- <-; cbn [hasFailed]; intros F F'; try discriminate F';
    repeat split.
Qed.


(** C1 (the code departs from it): on a registry document whose resolved
    version has a gitHead, [registry] returns no gitHead, and the run
    fetches the tag [tags/v1.2.3] and never the commit. *)
Theorem registry_drops_gitHead :
  prop (prop (prop (example_info
                      (VObj [("repository", git_repository);
                             ("gitHead", VStr "abc123abc123abc123abc123abc123abc123abcd");
                             ("dist", VObj [("shasum", VStr example_sha)])]))
                   "versions") "1.2.3") "gitHead"
  = VStr "abc123abc123abc123abc123abc123abc123abcd"
  /\ fst (registry commit_env "pkg" "" (reset_world example_world))
     = Ok (mkRegistryResult (VStr "1.2.3") (VStr "https://github.com/o/r.git")
                            (VStr example_sha) VUndefined)
  /\ execs (verify_events commit_env "pkg" "" example_world)
     = ["git init";
        "git remote add origin " ++ dquote ++ "https://github.com/o/r.git" ++ dquote;
        "git fetch --depth 1 origin tags/v1.2.3";
        "git checkout FETCH_HEAD";
        "npm pack --dry-run"]
  /\ fst (verify commit_env "pkg" "" example_world) = Ok true.
Proof. repeat split. Qed.

(** ** A missing registry digest *)

Lemma registryShasum_missing (versionInfo : value) (h : string) :
  prop versionInfo "_shasum" = VUndefined ->
  prop (prop versionInfo "dist") "shasum" = VUndefined ->
  String.length h = 40 ->
  strict_eq (registryShasum versionInfo) (VStr h) = false.
Proof.
  intros H1 H2 L. unfold registryShasum, js_or, js_and. rewrite H1, H2.
  cbn [truthy]. destruct (truthy (prop versionInfo "dist")) eqn:T; [reflexivity|].
  destruct (prop versionInfo "dist") as [| | | |s| | |]; try reflexivity.
  simpl in T. apply negb_false_iff, String.eqb_eq in T. subst s.
  destruct h; [discriminate L | reflexivity].
Qed.

Lemma pack_run_digest (c0 : string) (d : value) (l : list Event) (p : PackResult) :
  pack_run c0 d l (Ok p) -> has_fail l = false ->
  exists h, remoteShasum p = VStr h /\ String.length h = 40.
Proof.
  inversion 1; subst; intros F; cbn in F; try discriminate F;
    eexists; (split; [reflexivity | assumption]).
Qed.

Lemma registry_run_pack (l : list Event) (o : Outcome RegistryResult) (p : VerifyProgress) :
  registry_run l o -> status_of (progress_after p l) Pack = status_of p Pack.
Proof. destruct 1; reflexivity. Qed.

Lemma checkout_run_pack (c0 : string) (g : value) (l : list Event)
      (o : Outcome CheckoutResult) (p : VerifyProgress) :
  checkout_run c0 g l o -> status_of (progress_after p l) Pack = status_of p Pack.
Proof.
  destruct 1;
    repeat match goal with
           | H : _ \/ _ |- _ => destruct H
           | H : fetches _ |- _ => destruct H
           end; subst; reflexivity.
Qed.

Lemma pack_run_pass (c0 : string) (d : value) (l : list Event)
      (o : Outcome PackResult) (p : VerifyProgress) :
  pack_run c0 d l o -> status_of (progress_after p l) Pack = Pass ->
  has_fail l = false /\ exists q, o = Ok q.
Proof. destruct 1; cbn; intros HP; try discriminate HP; eauto. Qed.

Lemma verify_run_reaches_compare env packageName version w0 l o :
  verify_run env packageName version w0 l o ->
  status_of (progress_after createProgress l) Pack = Pass ->
  exists l1 l2 l3 l4 r p,
    l = (l1 ++ l2 ++ l3 ++ l4)%list
    /\ o = Ok (negb (has_fail l4))
    /\ registry env packageName version w0 = (Ok r, replay l1 w0)
    /\ has_fail l1 = false
    /\ (exists h, remoteShasum p = VStr h /\ String.length h = 40)
    /\ compare_run (shasum r) (remoteShasum p) l4.
Proof.
  intros R HP. inversion R; subst;
    repeat rewrite progress_after_app in HP;
    repeat match goal with
           | P : pack_run _ _ _ _ |- _ =>
               first [ rewrite (pack_run_pass _ _ _ _ _ P HP) in *; discriminate
                     | destruct (pack_run_pass _ _ _ _ _ P HP) as (? & ? & ?); congruence
                     | fail 1 ]
           end.
  all: try (repeat match goal with
                   | C : checkout_run _ _ _ _ |- _ =>
                       rewrite (checkout_run_pack _ _ _ _ _ C) in HP; clear C
                   | C : registry_run _ _ |- _ =>
                       rewrite (registry_run_pack _ _ _ C) in HP; clear C
                   end; discriminate HP).
  match goal with
  | P : pack_run _ _ _ (Ok ?p), F : has_fail _ = false |- _ =>
      destruct (pack_run_digest _ _ _ _ P F) as (h & Hh & Lh)
  end.
  do 6 eexists. repeat (split; [eassumption || reflexivity|]).
  split; [eauto | eassumption].
Qed.

Lemma title_progress_after (p : VerifyProgress) (l : list Event) (id : StepId) :
  title (step_of (progress_after p l) id) = title (step_of p id).
Proof.
  revert p; induction l as [|e l IH]; intros p; [reflexivity|].
  change (progress_after p (e :: l)) with (progress_after (progress_after p [e]) l).
  rewrite IH. destruct e as [| | | |j st msg]; try reflexivity.
  destruct j, id; reflexivity.
Qed.

(** C10: when what the registry document gives under [versions] for the
    resolved version has neither [_shasum] nor [dist.shasum] and the run
    gets through the pack phase
    (the pack step is Pass in the final table), the compare step is Fail
    with "Shasums do not match" and [verify] returns false. *)
Theorem missing_registry_digest_fails
        (env : Env) (packageName version : string) (w : World) (info : value) :
  get_resp env (trace w ++ [EUpdate Registry Working None])
           ("https://registry.npmjs.com/" ++ packageName) = inl info ->
  let versionInfo := findVersionInfo env info (resolveVersion env info version) in
  prop versionInfo "_shasum" = VUndefined ->
  prop (prop versionInfo "dist") "shasum" = VUndefined ->
  status_of (progress (snd (verify env packageName version w))) Pack = Pass ->
  fst (verify env packageName version w) = Ok false
  /\ step_of (progress (snd (verify env packageName version w))) Compare
     = mkStep Fail "Compare shasums" (Some "Shasums do not match").
Proof.
  intros G vi H1 H2 HP.
  destruct (verify_events_sound env packageName version w) as (o & V & R).
  rewrite V in HP |- *. cbn [fst snd] in HP |- *.
  rewrite progress_replay in HP |- *. cbn [reset_world progress] in HP |- *.
  destruct (verify_run_reaches_compare _ _ _ _ _ _ R HP)
    as (l1 & l2 & l3 & l4 & r & p & EL & -> & E & F & (h & Hh & Lh) & C).
  rewrite EL in *. clear EL.
  destruct (registry_result env packageName version (reset_world w) _ info r G E eq_refl)
    as (_ & S & _);
    [rewrite hasFailed_replay, F; reflexivity|].
  fold vi in S. rewrite S, Hh in C.
  inversion C as [Q|Q]; subst;
    [rewrite (registryShasum_missing vi h H1 H2 Lh) in Q; discriminate Q|].
  split; [reflexivity|].
  rewrite !app_assoc, progress_after_app.
  set (q := progress_after createProgress ((l1 ++ l2) ++ l3)).
  assert (T : title (step_of q Compare) = "Compare shasums")
    by apply title_progress_after.
  clearbody q. destruct q. cbn in T |- *. rewrite T. reflexivity.
Qed.

Lemma missing_registry_digest_fails_witness :
  fst (verify no_digest_env "pkg" "" example_world) = Ok false
  /\ step_of (progress (snd (verify no_digest_env "pkg" "" example_world))) Compare
     = mkStep Fail "Compare shasums" (Some "Shasums do not match").
Proof.
  exact (missing_registry_digest_fails
           no_digest_env "pkg" "" example_world
           (example_info (VObj [("repository", git_repository)]))
           eq_refl eq_refl eq_refl eq_refl).
Defined.

(** ** Exceptions *)



(** ** Failures of the collaborators *)




















(** ** Normalization of the repository URL *)

(** C9, as amended: normalization strips one leading "git+"; a URL that
    does not start with "git+" is returned unchanged;
    "git+https://x/y.git" maps to "https://x/y.git"; and normalizing twice
    is the same as normalizing once exactly for the URLs that do not
    start with "git+git+". *)
Theorem normalizeRepoUrl_strips_one_prefix (u : string) :
  normalizeRepoUrl ("git+" ++ u) = u
  /\ (startsWith u "git+" = false -> normalizeRepoUrl u = u)
  /\ normalizeRepoUrl "git+https://x/y.git" = "https://x/y.git"
  /\ (normalizeRepoUrl (normalizeRepoUrl u) = normalizeRepoUrl u
      <-> startsWith u "git+git+" = false).
Proof.
  split; [apply normalizeRepoUrl_strip|].
  split; [apply normalizeRepoUrl_fixed|].
  split; [reflexivity | apply normalizeRepoUrl_twice].
Qed.

Lemma normalizeRepoUrl_strips_one_prefix_witness :
  startsWith "https://x/y.git" "git+" = false
  /\ normalizeRepoUrl "https://x/y.git" = "https://x/y.git".
Proof.
  split; [reflexivity|].
  apply (proj1 (proj2 (normalizeRepoUrl_strips_one_prefix "https://x/y.git"))).
  reflexivity.
Defined.

(** C9, as stated, fails: normalization is not idempotent. *)
Lemma normalizeRepoUrl_not_idempotent :
  normalizeRepoUrl (normalizeRepoUrl "git+git+https://x/y.git")
  <> normalizeRepoUrl "git+git+https://x/y.git".
Proof. vm_compute. discriminate. Qed.

(** ** Scenarios *)

Example scenario_digest_mismatch :
  fst (verify mismatch_env "pkg" "" example_world) = Ok false
  /\ step_of (progress (snd (verify mismatch_env "pkg" "" example_world))) Compare
     = mkStep Fail "Compare shasums" (Some "Shasums do not match").
Proof. split; reflexivity. Qed.

Example scenario_dependency_fallback :
  fst (verify install_env "pkg" "" example_world) = Ok true
  /\ map (status_of (progress (snd (verify install_env "pkg" "" example_world)))) all_steps
     = [Pass; Pass; Pass; Pass; Pass; Pass; Pass].
Proof. split; reflexivity. Qed.

Example scenario_type_mismatch :
  map (status_of (progress (snd (verify svn_env "pkg" "1.2.3" example_world)))) all_steps
  = [Pass; Fail; Pending; Pending; Pending; Pending; Pending].
Proof. reflexivity. Qed.

(** A version spec that names a member of [Object.prototype] resolves to
    that member when the document has dist-tags, and finds it under
    [versions] when the document has none. *)
Example scenario_inherited_tag :
  resolveVersion constructor_version_env
                 (VObj [("dist-tags", VObj [("latest", VStr "1.2.3")])]) "toString"
  = VNative "function toString() { [native code] }"
  /\ verify_events constructor_version_env "pkg" "constructor" example_world
     = [EUpdate Registry Working None; EGet "https://registry.npmjs.com/pkg";
        EUpdate Registry Fail
          (Some "Cannot find info for version function Object() { [native code] } <<<<")]
  /\ fst (verify constructor_version_env "pkg" "constructor" example_world) = Ok false.
Proof. repeat split. Qed.

Example scenario_inherited_version :
  verify_events no_tags_env "pkg" "constructor" example_world
  = [EUpdate Registry Working None; EGet "https://registry.npmjs.com/pkg";
     EUpdate Registry Pass None; EUpdate Repo Working None;
     EUpdate Repo Fail (Some "Repository is not specified for version constructor")]
  /\ fst (verify no_tags_env "pkg" "constructor" example_world) = Ok false.
Proof. repeat split. Qed.

(** A repository type that does not convert to a string: the message of
    line 96 cannot be built, and [verify] throws with the repo step left
    Working. *)
Example scenario_unprintable_type :
  fst (verify unprintable_type_env "pkg" "" example_world)
  = Throw (TypeError "Cannot convert object to primitive value")
  /\ map (status_of (progress (snd (verify unprintable_type_env "pkg" "" example_world))))
         all_steps
     = [Pass; Working; Pending; Pending; Pending; Pending; Pending].
Proof. split; reflexivity. Qed.

(** [versions] may be an array: the version "0" is its first element. *)
Example scenario_array_of_versions :
  fst (verify array_versions_env "pkg" "" example_world) = Ok true
  /\ execs (verify_events array_versions_env "pkg" "" example_world)
     = ["git init";
        "git remote add origin " ++ dquote ++ "https://github.com/o/r.git" ++ dquote;
        "git fetch --depth 1 origin tags/v0";
        "git checkout FETCH_HEAD";
        "npm pack --dry-run"].
Proof. split; reflexivity. Qed.

(** The calls that fail in three of the example runs: the request, the
    fetch of the first tag, the first pack command. *)
Example scenario_failed_calls :
  failed_calls offline_env [] (verify_events offline_env "pkg" "" example_world)
  = [EGet "https://registry.npmjs.com/pkg"]
  /\ failed_calls plain_tag_env [] (verify_events plain_tag_env "pkg" "" example_world)
     = [EExec "git fetch --depth 1 origin tags/v1.2.3"]
  /\ failed_calls install_env [] (verify_events install_env "pkg" "" example_world)
     = [EExec "npm pack --dry-run"]
  /\ fst (verify install_env "pkg" "" example_world) = Ok true.
Proof. repeat split. Qed.

(** * Further properties *)

Lemma verify_events_of (env : Env) (packageName version : string) (w : World)
      (o : Outcome bool) (l : list Event) :
  verify env packageName version w = (o, replay l (reset_world w)) ->
  verify_events env packageName version w = l.
Proof.
  intros E. unfold verify_events. rewrite E. cbn [snd]. rewrite trace_replay.
  cbn [reset_world trace]. rewrite skipn_app, skipn_all, Nat.sub_diag. reflexivity.
Qed.

Ltac verify_unfold :=
  unfold verify, reset, getHasFailed; run_unfold; run_simpl.

(** ** What a run starts from *)

(** X2: [verify] starts from a fresh table and cleared flags: two runs
    that differ only in the table and the flags left by an earlier run
    return the same result and end in the same world. *)
Theorem verify_forgets_previous_run
        (env : Env) (packageName version : string) (w1 w2 : World) :
  cwd w1 = cwd w2 -> trace w1 = trace w2 ->
  verify env packageName version w1 = verify env packageName version w2.
Proof.
  intros C T. unfold verify, reset.
  change (bind ?m ?k w1) with (match m w1 with
                               | (Ok a, w') => k a w'
                               | (Throw e, w') => (Throw e, w')
                               end).
  change (bind ?m ?k w2) with (match m w2 with
                               | (Ok a, w') => k a w'
                               | (Throw e, w') => (Throw e, w')
                               end).
  cbv beta iota. rewrite C, T. reflexivity.
Qed.

Lemma verify_forgets_previous_run_witness :
  verify install_env "pkg" "" example_world
  = verify install_env "pkg" ""
           (mkWorld (progress (snd (verify svn_env "pkg" "1.2.3" example_world)))
                    true true "/home/user" []).
Proof.
  apply (verify_forgets_previous_run install_env "pkg" ""); reflexivity.
Defined.

(** ** Failures of the registry phase *)

(** X3: when the registry cannot be reached, the run consists of three
    events: registry set to Working, the request, and registry set to Fail
    with "Error fetching package data from registry"; [verify] returns
    false and every other step stays Pending. *)
Theorem unreachable_registry_fails_the_run
        (env : Env) (packageName version : string) (w : World) (e : exn) :
  get_resp env (trace w ++ [EUpdate Registry Working None])%list (registryUrl packageName)
  = inr e ->
  verify_events env packageName version w
  = [EUpdate Registry Working None; EGet (registryUrl packageName);
     EUpdate Registry Fail (Some "Error fetching package data from registry")]
  /\ fst (verify env packageName version w) = Ok false
  /\ statuses (progress (snd (verify env packageName version w)))
     = [Fail; Pending; Pending; Pending; Pending; Pending; Pending].
Proof.
  intros G. unfold registryUrl in G.
  assert (V : verify env packageName version w
              = (Ok false,
                 replay [EUpdate Registry Working None; EGet (registryUrl packageName);
                         EUpdate Registry Fail
                           (Some "Error fetching package data from registry")]
                        (reset_world w))).
  { verify_unfold. rewrite G. reflexivity. }
  rewrite (verify_events_of _ _ _ _ _ _ V), V. repeat split.
Qed.

Lemma unreachable_registry_fails_the_run_witness :
  fst (verify offline_env "pkg" "" example_world) = Ok false
  /\ statuses (progress (snd (verify offline_env "pkg" "" example_world)))
     = [Fail; Pending; Pending; Pending; Pending; Pending; Pending].
Proof.
  exact (proj2 (unreachable_registry_fails_the_run
                  offline_env "pkg" "" example_world _ eq_refl)).
Defined.

(** A registry step or repo step that fails ends the run at once. *)
Lemma verify_fails_in_registry (env : Env) (packageName version : string) (w : World)
      (l : list Event) :
  registry env packageName version (reset_world w) = (Ok noRegistry, replay l (reset_world w)) ->
  has_fail l = true ->
  verify_events env packageName version w = l
  /\ fst (verify env packageName version w) = Ok false
  /\ progress (snd (verify env packageName version w)) = progress_after createProgress l.
Proof.
  intros E F.
  assert (V : verify env packageName version w = (Ok false, replay l (reset_world w))).
  { unfold verify, reset.
    change (bind ?m ?k w) with (match m w with
                                | (Ok a, w') => k a w'
                                | (Throw e, w') => (Throw e, w')
                                end).
    cbv beta iota. change (mkWorld createProgress false false (cwd w) (trace w))
      with (reset_world w).
    unfold bind at 1. rewrite E. unfold bind at 1, getHasFailed at 1.
    cbv beta iota. rewrite hasFailed_replay, F. reflexivity. }
  rewrite (verify_events_of _ _ _ _ _ _ V), V. cbn [fst snd].
  rewrite progress_replay. repeat split.
Qed.

Ltac registry_equation :=
  unfold reset_world; run_unfold; run_simpl;
  repeat match goal with
         | H : _ = _ |- _ => rewrite H; run_simpl
         end;
  reflexivity.

Lemma findVersionInfo_versions (env : Env) (info rv : value) :
  truthy (findVersionInfo env info rv) = true -> truthy (prop info "versions") = true.
Proof.
  intros T. destruct (truthy (prop info "versions")) eqn:V; [reflexivity|].
  rewrite (findVersionInfo_no_versions _ _ _ V) in T. discriminate T.
Qed.

(** X5: the version spec resolves to what the dist-tags of the document
    give under its name ("latest" for the empty spec), an own tag or a
    member inherited from a prototype, when that is truthy, and to the
    spec itself otherwise.  So a spec that is not empty always resolves,
    and the resolution fails exactly for the empty spec on a document
    without a truthy [latest] tag; the registry step is then Fail with
    "Cannot resolve version ", nothing else is attempted and [verify]
    returns false. *)
Theorem only_the_empty_version_is_unresolved
        (env : Env) (packageName version : string) (w : World) (info : value) :
  get_resp env (trace w ++ [EUpdate Registry Working None])%list (registryUrl packageName)
  = inl info ->
  nullish info = false ->
  let tags := prop info "dist-tags" in
  let tag := member (inherited env) tags (if version =? "" then "latest" else version) in
  resolveVersion env info version
  = (if truthy tags && truthy tag then tag else VStr version)
  /\ (version <> "" -> truthy (resolveVersion env info version) = true)
  /\ (truthy (resolveVersion env info version) = false <->
      version = "" /\ truthy tags && truthy tag = false)
  /\ (truthy (resolveVersion env info version) = false ->
      verify_events env packageName version w
      = [EUpdate Registry Working None; EGet (registryUrl packageName);
         EUpdate Registry Fail (Some "Cannot resolve version ")]
      /\ fst (verify env packageName version w) = Ok false).
Proof.
  intros G N tags tag.
  assert (R : resolveVersion env info version
              = (if truthy tags && truthy tag then tag else VStr version)).
  { unfold resolveVersion, js_or, js_and. fold tags. fold tag.
    destruct (truthy tags) eqn:D; cbn [andb].
    - destruct (truthy tag); reflexivity.
    - rewrite D. reflexivity. }
  assert (A : truthy (resolveVersion env info version) = false <->
              version = "" /\ truthy tags && truthy tag = false).
  { rewrite R. destruct (truthy tags && truthy tag) eqn:X.
    - apply andb_true_iff in X as [_ X]. rewrite X.
      split; [discriminate | intros [_ ?]; discriminate].
    - cbn [truthy]. rewrite negb_false_iff, String.eqb_eq. tauto. }
  split; [exact R|]. split; [|split; [exact A|]].
  - intros NE. destruct (truthy (resolveVersion env info version)) eqn:T; [reflexivity|].
    destruct (proj1 A eq_refl) as [E _]. contradiction.
  - intros T. destruct (proj1 A T) as [-> _]. clear R A. unfold registryUrl in *.
    assert (E : registry env packageName "" (reset_world w)
                = (Ok noRegistry,
                   replay [EUpdate Registry Working None; EGet (registryUrl packageName);
                           EUpdate Registry Fail (Some "Cannot resolve version ")]
                          (reset_world w))) by registry_equation.
    destruct (verify_fails_in_registry env packageName "" w _ E eq_refl) as (Ev & Rs & _).
    split; assumption.
Qed.

Lemma only_the_empty_version_is_unresolved_witness :
  truthy (resolveVersion no_latest_env
            (VObj [("dist-tags", VObj [("next", VStr "2.0.0")]);
                   ("versions", VObj [("2.0.0", VObj [])])]) "") = false
  /\ fst (verify no_latest_env "pkg" "" example_world) = Ok false.
Proof.
  split; [reflexivity|].
  apply (proj2 (proj2 (proj2 (only_the_empty_version_is_unresolved
                                no_latest_env "pkg" "" example_world _ eq_refl eq_refl)))).
  reflexivity.
Defined.

(** X6: when the resolved version converts to a string and the document
    has no truthy entry for it under [versions] (no [versions] at all, or
    neither an own entry nor an inherited member), the registry step
    fails with "Cannot find info for version {resolvedVersion} <<<<",
    nothing else is attempted and [verify] returns false. *)
Theorem unknown_version_fails_the_run
        (env : Env) (packageName version : string) (w : World) (info : value) :
  get_resp env (trace w ++ [EUpdate Registry Working None])%list (registryUrl packageName)
  = inl info ->
  nullish info = false ->
  truthy (resolveVersion env info version) = true ->
  renders (resolveVersion env info version) = true ->
  truthy (findVersionInfo env info (resolveVersion env info version)) = false ->
  verify_events env packageName version w
  = [EUpdate Registry Working None; EGet (registryUrl packageName);
     EUpdate Registry Fail
       (Some ("Cannot find info for version " ++ toStr (resolveVersion env info version)
                ++ " <<<<"))]
  /\ fst (verify env packageName version w) = Ok false
  /\ statuses (progress (snd (verify env packageName version w)))
     = [Fail; Pending; Pending; Pending; Pending; Pending; Pending].
Proof.
  intros G N V S I. unfold registryUrl in *.
  assert (E : registry env packageName version (reset_world w)
              = (Ok noRegistry,
                 replay [EUpdate Registry Working None; EGet (registryUrl packageName);
                         EUpdate Registry Fail
                           (Some ("Cannot find info for version "
                                    ++ toStr (resolveVersion env info version) ++ " <<<<"))]
                        (reset_world w))).
  { destruct (truthy (prop info "versions")) eqn:Vs; registry_equation. }
  destruct (verify_fails_in_registry env packageName version w _ E eq_refl) as (Ev & R & P).
  rewrite P. repeat split; assumption.
Qed.

Lemma unknown_version_fails_the_run_witness :
  verify_events no_latest_env "pkg" "1.0.0" example_world
  = [EUpdate Registry Working None; EGet "https://registry.npmjs.com/pkg";
     EUpdate Registry Fail (Some "Cannot find info for version 1.0.0 <<<<")]
  /\ fst (verify no_latest_env "pkg" "1.0.0" example_world) = Ok false.
Proof.
  destruct (unknown_version_fails_the_run
              no_latest_env "pkg" "1.0.0" example_world _
              eq_refl eq_refl eq_refl eq_refl eq_refl)
    as (E & R & _).
  split; assumption.
Defined.

(** X4: once the version is found, the repository record is checked in
    three steps, each of which fails the repo step (the registry step
    being Pass) and the run: a missing record, a type other than the
    string "git" (the message quotes the type), a missing URL.  A type
    other than "git" that does not convert to a string makes [verify]
    throw a [TypeError] instead, with the repo step left Working. *)
Theorem repository_record_is_checked
        (env : Env) (packageName version : string) (w : World) (info : value) :
  get_resp env (trace w ++ [EUpdate Registry Working None])%list (registryUrl packageName)
  = inl info ->
  nullish info = false ->
  let rv := resolveVersion env info version in
  let repository := prop (findVersionInfo env info rv) "repository" in
  let fails_with (m : string) :=
    verify_events env packageName version w
    = [EUpdate Registry Working None; EGet (registryUrl packageName);
       EUpdate Registry Pass None; EUpdate Repo Working None;
       EUpdate Repo Fail (Some m)]
    /\ fst (verify env packageName version w) = Ok false
    /\ statuses (progress (snd (verify env packageName version w)))
       = [Pass; Fail; Pending; Pending; Pending; Pending; Pending] in
  truthy rv = true ->
  renders rv = true ->
  truthy (findVersionInfo env info rv) = true ->
  (truthy repository = false ->
   fails_with ("Repository is not specified for version " ++ toStr rv))
  /\ (truthy repository = true ->
      strict_eq (prop repository "type") (VStr "git") = false ->
      renders (prop repository "type") = true ->
      fails_with ("Non-git (" ++ toStr (prop repository "type")
                    ++ ") repository specified for version " ++ toStr rv))
  /\ (truthy repository = true ->
      strict_eq (prop repository "type") (VStr "git") = false ->
      renders (prop repository "type") = false ->
      verify_events env packageName version w
      = [EUpdate Registry Working None; EGet (registryUrl packageName);
         EUpdate Registry Pass None; EUpdate Repo Working None]
      /\ (exists m, fst (verify env packageName version w) = Throw (TypeError m))
      /\ statuses (progress (snd (verify env packageName version w)))
         = [Pass; Working; Pending; Pending; Pending; Pending; Pending])
  /\ (truthy repository = true ->
      strict_eq (prop repository "type") (VStr "git") = true ->
      truthy (prop repository "url") = false ->
      fails_with ("Repository URL is not specified for version " ++ toStr rv)).
Proof.
  intros G N rv repository fails_with V S I. unfold registryUrl in *.
  assert (Vs := findVersionInfo_versions _ _ _ I).
  assert (K : forall m,
             registry env packageName version (reset_world w)
             = (Ok noRegistry,
                replay [EUpdate Registry Working None;
                        EGet ("https://registry.npmjs.com/" ++ packageName);
                        EUpdate Registry Pass None; EUpdate Repo Working None;
                        EUpdate Repo Fail (Some m)] (reset_world w)) ->
             fails_with m).
  { intros m E.
    destruct (verify_fails_in_registry env packageName version w _ E eq_refl)
      as (Ev & R & P).
    unfold fails_with. rewrite P. repeat split; assumption. }
  subst rv repository.
  split; [|split; [|split]]; intros.
  - apply K; registry_equation.
  - apply K; registry_equation.
  - assert (E : registry env packageName version (reset_world w)
                = (Throw (TypeError "Cannot convert object to primitive value"),
                   replay [EUpdate Registry Working None;
                           EGet ("https://registry.npmjs.com/" ++ packageName);
                           EUpdate Registry Pass None; EUpdate Repo Working None]
                          (reset_world w))) by registry_equation.
    assert (X : verify env packageName version w
                = (Throw (TypeError "Cannot convert object to primitive value"),
                   replay [EUpdate Registry Working None;
                           EGet ("https://registry.npmjs.com/" ++ packageName);
                           EUpdate Registry Pass None; EUpdate Repo Working None]
                          (reset_world w))).
    { unfold verify, reset.
      change (bind ?m ?k w) with (match m w with
                                  | (Ok a, w') => k a w'
                                  | (Throw e, w') => (Throw e, w')
                                  end).
      cbv beta iota. change (mkWorld createProgress false false (cwd w) (trace w))
        with (reset_world w).
      unfold bind at 1. rewrite E. reflexivity. }
    rewrite (verify_events_of _ _ _ _ _ _ X), X.
    split; [reflexivity|]. split; [eexists; reflexivity | reflexivity].
  - apply K; registry_equation.
Qed.

Lemma repository_record_is_checked_witness :
  verify_events svn_env "pkg" "" example_world
  = [EUpdate Registry Working None; EGet "https://registry.npmjs.com/pkg";
     EUpdate Registry Pass None; EUpdate Repo Working None;
     EUpdate Repo Fail (Some "Non-git (svn) repository specified for version 1.2.3")]
  /\ fst (verify svn_env "pkg" "" example_world) = Ok false.
Proof.
  destruct (repository_record_is_checked
              svn_env "pkg" "" example_world _ eq_refl eq_refl eq_refl eq_refl eq_refl)
    as (_ & H & _).
  destruct (H eq_refl eq_refl eq_refl) as (E & R & _).
  split; assumption.
Defined.

(** X7: on a document that gives the resolved version a git repository,
    the registry phase returns the resolved version, the normalized URL,
    and as digest the legacy [_shasum] when it is truthy, whatever
    [dist.shasum] is; [dist.shasum] is used only when [_shasum] is falsy. *)
Theorem registry_prefers_the_legacy_digest
        (env : Env) (packageName version : string) (w : World) (info : value) (u : string) :
  get_resp env (trace w ++ [EUpdate Registry Working None])%list (registryUrl packageName)
  = inl info ->
  reaches_gitHead env info version u ->
  let vi := findVersionInfo env info (resolveVersion env info version) in
  exists r,
    fst (registry env packageName version w) = Ok r
    /\ resolvedVersion r = resolveVersion env info version
    /\ repoUrl r = VStr (normalizeRepoUrl u)
    /\ (truthy (prop vi "_shasum") = true -> shasum r = prop vi "_shasum")
    /\ (truthy (prop vi "_shasum") = false -> truthy (prop vi "dist") = true ->
        shasum r = prop (prop vi "dist") "shasum")
    /\ (truthy (prop vi "_shasum") = false -> truthy (prop vi "dist") = false ->
        truthy (shasum r) = false).
Proof.
  intros G R vi. unfold registryUrl in G.
  rewrite (registry_passes env packageName version w info u G R).
  eexists. split; [reflexivity|]. cbn [resolvedVersion repoUrl shasum].
  split; [reflexivity|]. split; [reflexivity|].
  fold vi. unfold registryShasum, js_or, js_and.
  split; [|split].
  - intros ->. reflexivity.
  - intros -> ->. reflexivity.
  - intros -> D. rewrite D. exact D.
Qed.

Lemma registry_prefers_the_legacy_digest_witness :
  exists r,
    fst (registry legacy_digest_env "pkg" "" example_world) = Ok r
    /\ shasum r = VStr example_sha.
Proof.
  destruct (registry_prefers_the_legacy_digest
              legacy_digest_env "pkg" "" example_world
              (example_info
                 (VObj [("repository", git_repository);
                        ("_shasum", VStr example_sha);
                        ("dist", VObj [("shasum",
                                        VStr "aaaaaaaaaaaaaaaaaaaaaaaaaaaaaaaaaaaaaaaa")])]))
              "git+https://github.com/o/r.git" eq_refl)
    as (r & E & _ & _ & L & _).
  - unfold reaches_gitHead. repeat split. discriminate.
  - exists r. split; [exact E | exact (L eq_refl)].
Defined.

(** ** Failures and paths of the checkout phase *)

Ltac phase_equation :=
  repeat rewrite snoc2 in *; run_unfold; run_simpl; cbn [toStr] in *;
  repeat match goal with
         | H : _ = _ |- _ => rewrite H; run_simpl
         end;
  reflexivity.

(** X8: when no temporary directory can be allocated, [checkout] sets the
    step to Fail with "Error creating temp directory" and returns [{}]
    without changing directory and without running any command. *)
Theorem checkout_without_temp_dir
        (env : Env) (repoUrl gitHead resolvedVersion : value) (w : World) (e : exn) :
  createTemp_resp env (trace w ++ [EUpdate Checkout Working None])%list = inr e ->
  checkout env repoUrl gitHead resolvedVersion w
  = (Ok (mkCheckoutResult VUndefined VUndefined),
     replay [EUpdate Checkout Working None; ECreateTemp;
             EUpdate Checkout Fail (Some "Error creating temp directory")] w).
Proof. intros T. phase_equation. Qed.

Lemma checkout_without_temp_dir_witness :
  checkout no_temp_env (VStr "https://github.com/o/r.git") VUndefined (VStr "1.2.3")
           example_world
  = (Ok (mkCheckoutResult VUndefined VUndefined),
     replay [EUpdate Checkout Working None; ECreateTemp;
             EUpdate Checkout Fail (Some "Error creating temp directory")] example_world).
Proof.
  exact (checkout_without_temp_dir no_temp_env (VStr "https://github.com/o/r.git")
                                   VUndefined (VStr "1.2.3") example_world _ eq_refl).
Defined.

(** X9: when [git init] fails, or [git init] succeeds and [git remote add]
    fails, [checkout] sets the step to Fail with "Error initializing git
    repo in temp directory" (the same message for both), goes back to the
    directory it started in, returns [{tempDir}] and fetches nothing. *)
Theorem checkout_without_repository
        (env : Env) (repoUrl gitHead resolvedVersion : value) (w : World) (d : string) :
  let remote := "git remote add origin " ++ dquote ++ toStr repoUrl ++ dquote in
  let t0 := (trace w ++ [EUpdate Checkout Working None])%list in
  createTemp_resp env t0 = inl d ->
  (forall e,
      exec_resp env (t0 ++ [ECreateTemp; EChdir d])%list "git init" = inr e ->
      checkout env repoUrl gitHead resolvedVersion w
      = (Ok (mkCheckoutResult (VStr d) VUndefined),
         replay [EUpdate Checkout Working None; ECreateTemp; EChdir d; EExec "git init";
                 EUpdate Checkout Fail (Some "Error initializing git repo in temp directory");
                 EChdir (cwd w)] w))
  /\ (forall o e,
      exec_resp env (t0 ++ [ECreateTemp; EChdir d])%list "git init" = inl o ->
      exec_resp env (t0 ++ [ECreateTemp; EChdir d; EExec "git init"])%list remote = inr e ->
      checkout env repoUrl gitHead resolvedVersion w
      = (Ok (mkCheckoutResult (VStr d) VUndefined),
         replay [EUpdate Checkout Working None; ECreateTemp; EChdir d; EExec "git init";
                 EExec remote;
                 EUpdate Checkout Fail (Some "Error initializing git repo in temp directory");
                 EChdir (cwd w)] w)).
Proof.
  intros remote t0 T. subst t0 remote. split; intros; phase_equation.
Qed.

Lemma checkout_without_repository_witness :
  checkout (failing_env ["git init"]) (VStr "https://github.com/o/r.git") VUndefined
           (VStr "1.2.3") example_world
  = (Ok (mkCheckoutResult (VStr "/tmp/tbv-1") VUndefined),
     replay [EUpdate Checkout Working None; ECreateTemp; EChdir "/tmp/tbv-1";
             EExec "git init";
             EUpdate Checkout Fail (Some "Error initializing git repo in temp directory");
             EChdir "/home/user"] example_world).
Proof.
  exact (proj1 (checkout_without_repository
                  (failing_env ["git init"]) (VStr "https://github.com/o/r.git")
                  VUndefined (VStr "1.2.3") example_world "/tmp/tbv-1" eq_refl)
               _ eq_refl).
Defined.

(** X10: called with a commit reference [g] (a non-empty string) on an
    initialised repository, [checkout] fetches that commit and no tag.
    When the fetch and the checkout of FETCH_HEAD succeed the step is Pass
    and the refspec is [g]; when the checkout of FETCH_HEAD fails the step
    is Fail and the result still carries the refspec; when the fetch fails
    the step is Fail with a message quoting the first seven characters of
    [g], no tag is tried and the result is [{tempDir}]. *)
Theorem checkout_by_commit
        (env : Env) (repoUrl resolvedVersion : value) (w : World) (g d o1 o2 : string) :
  let remote := "git remote add origin " ++ dquote ++ toStr repoUrl ++ dquote in
  let fetch := "git fetch --depth 1 origin " ++ g in
  let t0 := (trace w ++ [EUpdate Checkout Working None])%list in
  let t1 := (t0 ++ [ECreateTemp; EChdir d; EExec "git init"; EExec remote])%list in
  let setup := [EUpdate Checkout Working None; ECreateTemp; EChdir d;
                EExec "git init"; EExec remote; EExec fetch] in
  g <> "" ->
  createTemp_resp env t0 = inl d ->
  exec_resp env (t0 ++ [ECreateTemp; EChdir d])%list "git init" = inl o1 ->
  exec_resp env (t0 ++ [ECreateTemp; EChdir d; EExec "git init"])%list remote = inl o2 ->
  (forall o o',
      exec_resp env t1 fetch = inl o ->
      exec_resp env (t1 ++ [EExec fetch])%list "git checkout FETCH_HEAD" = inl o' ->
      checkout env repoUrl (VStr g) resolvedVersion w
      = (Ok (mkCheckoutResult (VStr d) (VStr g)),
         replay (setup ++ [EExec "git checkout FETCH_HEAD"; EChdir (cwd w);
                           EUpdate Checkout Pass None])%list w))
  /\ (forall o e,
      exec_resp env t1 fetch = inl o ->
      exec_resp env (t1 ++ [EExec fetch])%list "git checkout FETCH_HEAD" = inr e ->
      checkout env repoUrl (VStr g) resolvedVersion w
      = (Ok (mkCheckoutResult (VStr d) (VStr g)),
         replay (setup ++ [EExec "git checkout FETCH_HEAD";
                           EUpdate Checkout Fail (Some "Unable to checkout FETCH_HEAD");
                           EChdir (cwd w)])%list w))
  /\ (forall e,
      exec_resp env t1 fetch = inr e ->
      checkout env repoUrl (VStr g) resolvedVersion w
      = (Ok (mkCheckoutResult (VStr d) VUndefined),
         replay (setup ++ [EUpdate Checkout Fail
                             (Some ("Unable fetch commit from remote ("
                                      ++ substring 0 7 g ++ ")")%string);
                           EChdir (cwd w)])%list w)).
Proof.
  intros remote fetch t0 t1 setup NE T I R.
  assert (X : truthy (VStr g) = true) by (destruct g; [congruence | reflexivity]).
  subst t1 t0 setup fetch remote.
  split; [|split]; intros; phase_equation.
Qed.

Lemma checkout_by_commit_witness :
  checkout no_commit_env (VStr "https://github.com/o/r.git") (VStr "abc1234def")
           (VStr "1.2.3") example_world
  = (Ok (mkCheckoutResult (VStr "/tmp/tbv-1") VUndefined),
     replay [EUpdate Checkout Working None; ECreateTemp; EChdir "/tmp/tbv-1";
             EExec "git init";
             EExec ("git remote add origin " ++ dquote ++ "https://github.com/o/r.git"
                      ++ dquote);
             EExec "git fetch --depth 1 origin abc1234def";
             EUpdate Checkout Fail (Some "Unable fetch commit from remote (abc1234)");
             EChdir "/home/user"] example_world).
Proof.
  assert (NE : "abc1234def" <> "") by discriminate.
  exact (proj2 (proj2 (checkout_by_commit
                         no_commit_env (VStr "https://github.com/o/r.git") (VStr "1.2.3")
                         example_world "abc1234def" "/tmp/tbv-1" "" ""
                         NE eq_refl eq_refl eq_refl))
               _ eq_refl).
Defined.



(** X11: whenever [checkout] ends with its step Pass, it returns a
    directory name and a refspec (the commit reference it was given, or
    one of the two tags), the fail flag is as before, and the process is
    back in the directory it started in. *)
Theorem checkout_pass_gives_directory_and_refspec
        (env : Env) (repoUrl gitHead resolvedVersion : value) (w : World) :
  status_of (progress (snd (checkout env repoUrl gitHead resolvedVersion w))) Checkout = Pass ->
  exists d r,
    fst (checkout env repoUrl gitHead resolvedVersion w) = Ok (mkCheckoutResult (VStr d) r)
    /\ (r = gitHead /\ truthy gitHead = true
        \/ truthy gitHead = false
           /\ (r = VStr ("tags/v" ++ toStr resolvedVersion)
               \/ r = VStr ("tags/" ++ toStr resolvedVersion)))
    /\ hasFailed (snd (checkout env repoUrl gitHead resolvedVersion w)) = hasFailed w
    /\ cwd (snd (checkout env repoUrl gitHead resolvedVersion w)) = cwd w.
Proof.
  run_unfold. run_simpl.
  repeat run_case;
    cbn [status_of step_of set_step p_checkout status];
    intros HP; try discriminate HP;
    eexists; eexists; (split; [reflexivity|]); (split; [|split; reflexivity]); auto.
Qed.

Lemma checkout_pass_gives_directory_and_refspec_witness :
  exists d r,
    fst (checkout plain_tag_env (VStr "https://github.com/o/r.git") VUndefined
                  (VStr "1.2.3") example_world) = Ok (mkCheckoutResult (VStr d) r)
    /\ cwd (snd (checkout plain_tag_env (VStr "https://github.com/o/r.git") VUndefined
                          (VStr "1.2.3") example_world)) = "/home/user".
Proof.
  destruct (checkout_pass_gives_directory_and_refspec
              plain_tag_env (VStr "https://github.com/o/r.git") VUndefined (VStr "1.2.3")
              example_world eq_refl) as (d & r & E & _ & _ & C).
  exists d, r. split; [exact E | exact C].
Defined.

(** ** What the phases leave alone *)

(** X12: each phase updates only its own steps: [registry] leaves the
    steps from checkout on as they are, [checkout] every step but
    checkout, [pack] every step but install and pack, [compare] every step
    but compare. *)
Theorem phases_update_only_their_steps
        (env : Env) (packageName version : string)
        (repoUrl gitHead resolvedVersion tempDir a b : value) (w : World) (id : StepId) :
  (2 < step_index id ->
   step_of (progress (snd (registry env packageName version w))) id
   = step_of (progress w) id)
  /\ (id <> Checkout ->
      step_of (progress (snd (checkout env repoUrl gitHead resolvedVersion w))) id
      = step_of (progress w) id)
  /\ (id <> Install -> id <> Pack ->
      step_of (progress (snd (pack env tempDir w))) id = step_of (progress w) id)
  /\ (id <> Compare ->
      step_of (progress (snd (compare a b w))) id = step_of (progress w) id).
Proof.
  destruct (registry_sound env packageName version w) as (l1 & o1 & E1 & R1).
  destruct (checkout_sound env repoUrl gitHead resolvedVersion w) as (l2 & o2 & E2 & R2).
  destruct (pack_sound env tempDir w) as (l3 & o3 & E3 & R3).
  destruct (compare_sound a b w) as (l4 & E4 & R4).
  rewrite E1, E2, E3, E4. cbn [snd]. rewrite !progress_replay.
  repeat split.
  - intros L. destruct R1; destruct id; simpl in L; try lia; reflexivity.
  - intros N. destruct R2;
      repeat match goal with
             | H : _ \/ _ |- _ => destruct H
             | H : fetches _ |- _ => destruct H
             end; subst; destruct id; try congruence; reflexivity.
  - intros N N'. destruct R3; destruct id; try congruence; reflexivity.
  - intros N. destruct R4; destruct id; try congruence; reflexivity.
Qed.

Lemma phases_update_only_their_steps_witness :
  step_of (progress (snd (pack install_env (VStr "/tmp/tbv-1") example_world))) Compare
  = step_of (progress example_world) Compare.
Proof.
  apply (phases_update_only_their_steps
           install_env "pkg" "" VUndefined VUndefined VUndefined (VStr "/tmp/tbv-1")
           VUndefined VUndefined example_world Compare); discriminate.
Defined.

(** ** The commands of the phases *)

(** X18: the commands [checkout] runs are an initial segment of: [git
    init], [git remote add origin "{repoUrl}"], the fetch of the commit
    reference when it is truthy and otherwise the fetch of
    [tags/v{resolvedVersion}], possibly followed by that of
    [tags/{resolvedVersion}], and [git checkout FETCH_HEAD]; and it makes
    no request. *)
Theorem checkout_runs_only_its_git_commands
        (env : Env) (repoUrl gitHead resolvedVersion : value) (w : World) :
  exists l,
    trace (snd (checkout env repoUrl gitHead resolvedVersion w)) = (trace w ++ l)%list
    /\ gets l = []
    /\ (initial_segment (execs l) (checkout_commands repoUrl gitHead resolvedVersion false)
        \/ initial_segment (execs l) (checkout_commands repoUrl gitHead resolvedVersion true)).
Proof.
  run_unfold. run_simpl.
  repeat run_case; cbn [snd trace]; added_events; (split; [reflexivity|]);
    unfold initial_segment, checkout_commands;
    repeat match goal with
           | H : truthy _ = _ |- _ => rewrite H
           end;
    cbn [execs flat_map app];
    first [ left; eexists; cbn [app]; reflexivity
          | right; eexists; cbn [app]; reflexivity ].
Qed.


(** ** Paths of the pack phase *)

(** X14: when the first [npm pack --dry-run] succeeds, [pack] marks
    install Skipped and never runs [npm ci]: the output is parsed at once. *)
Theorem pack_skips_install_when_pack_succeeds
        (env : Env) (tempDir : string) (w : World) (out : string) :
  exec_resp env (trace w ++ [EUpdate Pack Working None; EChdir tempDir])%list
            "npm pack --dry-run" = inl out ->
  pack env (VStr tempDir) w
  = (Ok (mkPackResult (match shasum_exec out with Some h => VStr h | None => VUndefined end)),
     replay [EUpdate Pack Working None; EChdir tempDir; EExec "npm pack --dry-run";
             EUpdate Install Skipped None;
             match shasum_exec out with
             | Some _ => EUpdate Pack Pass None
             | None => EUpdate Pack Fail (Some "Error parsing shasum from pack output")
             end;
             EChdir (cwd w)] w).
Proof. intros P. destruct (shasum_exec out) eqn:X; phase_equation. Qed.

Lemma pack_skips_install_when_pack_succeeds_witness :
  pack commit_env (VStr "/tmp/tbv-1") example_world
  = (Ok (mkPackResult (VStr example_sha)),
     replay [EUpdate Pack Working None; EChdir "/tmp/tbv-1"; EExec "npm pack --dry-run";
             EUpdate Install Skipped None; EUpdate Pack Pass None;
             EChdir "/home/user"] example_world).
Proof.
  exact (pack_skips_install_when_pack_succeeds
           commit_env "/tmp/tbv-1" example_world ("shasum: " ++ example_sha) eq_refl).
Defined.

(** X15: when the first [npm pack --dry-run] fails and [npm ci] fails
    too, install is Fail with "Error installing dependencies", the pack
    step stays Pending with "Waiting for dependencies", the pack command
    is not run again, the directory is restored and [pack] returns [{}]. *)
Theorem pack_stops_when_install_fails
        (env : Env) (tempDir : string) (w : World) (e e' : exn) :
  let t0 := (trace w ++ [EUpdate Pack Working None; EChdir tempDir])%list in
  exec_resp env t0 "npm pack --dry-run" = inr e ->
  exec_resp env (t0 ++ [EExec "npm pack --dry-run";
                        EUpdate Pack Pending (Some "Waiting for dependencies");
                        EUpdate Install Working None])%list "npm ci" = inr e' ->
  pack env (VStr tempDir) w
  = (Ok (mkPackResult VUndefined),
     replay [EUpdate Pack Working None; EChdir tempDir; EExec "npm pack --dry-run";
             EUpdate Pack Pending (Some "Waiting for dependencies");
             EUpdate Install Working None; EExec "npm ci";
             EUpdate Install Fail (Some "Error installing dependencies");
             EChdir (cwd w)] w).
Proof. intros t0 P C. subst t0. phase_equation. Qed.

Lemma pack_stops_when_install_fails_witness :
  pack (failing_env ["npm pack --dry-run"; "npm ci"]) (VStr "/tmp/tbv-1") example_world
  = (Ok (mkPackResult VUndefined),
     replay [EUpdate Pack Working None; EChdir "/tmp/tbv-1"; EExec "npm pack --dry-run";
             EUpdate Pack Pending (Some "Waiting for dependencies");
             EUpdate Install Working None; EExec "npm ci";
             EUpdate Install Fail (Some "Error installing dependencies");
             EChdir "/home/user"] example_world).
Proof.
  exact (pack_stops_when_install_fails
           (failing_env ["npm pack --dry-run"; "npm ci"]) "/tmp/tbv-1" example_world
           _ _ eq_refl eq_refl).
Defined.

(** X16: when the first [npm pack --dry-run] fails, [npm ci] succeeds
    and the second [npm pack --dry-run] fails with [err], install is Pass
    and the pack step is Fail with "Error creating package from remote
    files" followed, without a separator, by the rendering of [err];
    [pack] returns [{}]. *)
Theorem pack_fails_when_retry_fails
        (env : Env) (tempDir : string) (w : World) (e err : exn) (o : string) :
  let t0 := (trace w ++ [EUpdate Pack Working None; EChdir tempDir])%list in
  let t1 := (t0 ++ [EExec "npm pack --dry-run";
                    EUpdate Pack Pending (Some "Waiting for dependencies");
                    EUpdate Install Working None])%list in
  exec_resp env t0 "npm pack --dry-run" = inr e ->
  exec_resp env t1 "npm ci" = inl o ->
  exec_resp env (t1 ++ [EExec "npm ci"; EUpdate Install Pass None;
                        EUpdate Pack Working None])%list "npm pack --dry-run" = inr err ->
  pack env (VStr tempDir) w
  = (Ok (mkPackResult VUndefined),
     replay [EUpdate Pack Working None; EChdir tempDir; EExec "npm pack --dry-run";
             EUpdate Pack Pending (Some "Waiting for dependencies");
             EUpdate Install Working None; EExec "npm ci";
             EUpdate Install Pass None; EUpdate Pack Working None;
             EExec "npm pack --dry-run";
             EUpdate Pack Fail
               (Some ("Error creating package from remote files" ++ exn_toString err));
             EChdir (cwd w)] w).
Proof. intros t0 t1 P C P'. subst t1 t0. phase_equation. Qed.

Lemma pack_fails_when_retry_fails_witness :
  pack (failing_env ["npm pack --dry-run"]) (VStr "/tmp/tbv-1") example_world
  = (Ok (mkPackResult VUndefined),
     replay [EUpdate Pack Working None; EChdir "/tmp/tbv-1"; EExec "npm pack --dry-run";
             EUpdate Pack Pending (Some "Waiting for dependencies");
             EUpdate Install Working None; EExec "npm ci";
             EUpdate Install Pass None; EUpdate Pack Working None;
             EExec "npm pack --dry-run";
             EUpdate Pack Fail
               (Some "Error creating package from remote filesError: Command failed");
             EChdir "/home/user"] example_world).
Proof.
  exact (pack_fails_when_retry_fails
           (failing_env ["npm pack --dry-run"]) "/tmp/tbv-1" example_world
           _ _ _ eq_refl eq_refl eq_refl).
Defined.

(** X17: called with a value that is not a directory name (as the
    [undefined] of an empty result), [pack] throws a TypeError when it
    changes directory: the pack step is left Working and no command is
    run. *)
Theorem pack_throws_without_directory (env : Env) (tempDir : value) (w : World) :
  (forall d, tempDir <> VStr d) ->
  exists m,
    pack env tempDir w = (Throw (TypeError m), replay [EUpdate Pack Working None] w).
Proof.
  intros N. eexists. destruct tempDir; try (destruct (N _ eq_refl)); reflexivity.
Qed.

Lemma pack_throws_without_directory_witness :
  exists m,
    pack install_env VUndefined example_world
    = (Throw (TypeError m), replay [EUpdate Pack Working None] example_world).
Proof.
  apply (pack_throws_without_directory install_env VUndefined example_world).
  intros d. discriminate.
Defined.

(** ** Whole runs *)

Lemma registry_ok_get (env : Env) (packageName version : string) (w w' : World)
      (r : RegistryResult) :
  registry env packageName version w = (Ok r, w') ->
  hasFailed w = false -> hasFailed w' = false ->
  exists info,
    get_resp env (trace w ++ [EUpdate Registry Working None])%list
             ("https://registry.npmjs.com/" ++ packageName) = inl info.
Proof.
  run_unfold. run_simpl.
  destruct (get_resp env _ _) as [info|e]; [eauto|].
  run_simpl. intros E. injection E as <- <-. cbn [hasFailed]. discriminate.
Qed.

Lemma pack_ok_output (env : Env) (tempDir : value) (w w' : World) (p : PackResult) :
  pack env tempDir w = (Ok p, w') ->
  hasFailed w = false -> hasFailed w' = false ->
  exists pre post out h,
    trace w' = (trace w ++ pre ++ EExec "npm pack --dry-run" :: post)%list
    /\ execs post = []
    /\ exec_resp env (trace w ++ pre) "npm pack --dry-run" = inl out
    /\ shasum_exec out = Some h
    /\ remoteShasum p = VStr h.
Proof.
  run_unfold. run_simpl.
  repeat run_case; intros E; try discriminate E;
    injection E as <- <-; cbn [hasFailed]; intros F F'; try discriminate F';
    cbn [trace] in *;
    match goal with
    | P : exec_resp env ?t "npm pack --dry-run" = inl ?out, X : shasum_exec ?out = Some ?h
      |- exists pre post _ _, ?T = _ /\ _ =>
        let pre := events_of t in
        let pre' := eval cbn [app] in pre in
        let full := events_of T in
        let full' := eval cbn [app] in full in
        let post := eval cbn [skipn List.length app] in (skipn (S (List.length pre')) full') in
        exists pre', post, out, h;
        split; [repeat rewrite <- app_assoc; reflexivity|];
        split; [reflexivity|];
        split; [|split; [exact X | reflexivity]];
        rewrite <- P; f_equal; repeat rewrite <- app_assoc; reflexivity
    end.
Qed.

Lemma strict_eq_string (a : value) (h : string) :
  strict_eq a (VStr h) = true -> a = VStr h.
Proof.
  destruct a; try discriminate. simpl. intros E. apply String.eqb_eq in E. congruence.
Qed.

Lemma compare_run_execs (a b : value) (l : list Event) : compare_run a b l -> execs l = [].
Proof. destruct 1; reflexivity. Qed.

(** X19: [verify] returns true only if the registry answered, the
    digest its document records for the resolved version ([_shasum], or
    else [dist.shasum]) is a string [h], the last command of the run is
    an [npm pack --dry-run] that succeeded, and [h] is what the leftmost
    match of the digest pattern captures in the output of that command. *)
Theorem true_verdict_means_equal_digests
        (env : Env) (packageName version : string) (w : World) :
  fst (verify env packageName version w) = Ok true ->
  exists info h out pre post,
    get_resp env (trace w ++ [EUpdate Registry Working None])%list (registryUrl packageName)
    = inl info
    /\ registryShasum (findVersionInfo env info (resolveVersion env info version)) = VStr h
    /\ verify_events env packageName version w
       = (pre ++ EExec "npm pack --dry-run" :: post)%list
    /\ execs post = []
    /\ exec_resp env (trace w ++ pre) "npm pack --dry-run" = inl out
    /\ exists before ws after, shasum_at before ws h after out /\ leftmost before out.
Proof.
  intros T.
  destruct (verify_events_sound env packageName version w) as (o & V & R).
  rewrite V in T. cbn [fst] in T. clear V.
  set (l := verify_events env packageName version w) in *. clearbody l.
  assert (F0 : hasFailed (reset_world w) = false) by reflexivity.
  revert T. inversion R; subst; intros T; try discriminate T.
  injection T as B. apply negb_true_iff in B.
  match goal with
  | F1 : has_fail l1 = false, F2 : has_fail l2 = false, F3 : has_fail l3 = false |- _ =>
      assert (H1' : hasFailed (replay l1 (reset_world w)) = false)
        by (rewrite hasFailed_replay, F0, F1; reflexivity);
      assert (H2' : hasFailed (replay (l1 ++ l2) (reset_world w)) = false)
        by (rewrite hasFailed_replay, F0, has_fail_app, F1, F2; reflexivity);
      assert (H3' : hasFailed (replay (l1 ++ l2 ++ l3) (reset_world w)) = false)
        by (rewrite hasFailed_replay, F0, !has_fail_app, F1, F2, F3; reflexivity)
  end.
  match goal with
  | E1 : registry _ _ _ _ = (Ok r, _) |- _ =>
      destruct (registry_ok_get _ _ _ _ _ _ E1 F0 H1') as (info & G);
      destruct (registry_result _ _ _ _ _ info _ G E1 F0 H1') as (_ & S & _)
  end.
  match goal with
  | E3 : pack _ _ _ = (Ok p, _) |- _ =>
      destruct (pack_ok_output _ _ _ _ _ E3 H2' H3')
        as (pre & post & out & h & Tr & Xp & X & Y & Z)
  end.
  match goal with
  | C : compare_run _ _ l4 |- _ =>
      pose proof (compare_run_execs _ _ _ C) as X4;
      inversion C as [Q|Q]; subst; [|discriminate B]
  end.
  rewrite S, Z in Q. apply strict_eq_string in Q.
  rewrite !trace_replay in Tr. cbn [reset_world trace] in Tr, X.
  rewrite trace_replay in X. cbn [reset_world trace] in X.
  rewrite <- !app_assoc in Tr. apply app_inv_head in Tr.
  apply app_inv_head in Tr. apply app_inv_head in Tr. subst l3.
  destruct (shasum_exec_sound_leftmost _ _ Y) as (before & ws & after & A & L).
  exists info, h, out, (l1 ++ l2 ++ pre)%list,
         (post ++ [EUpdate Compare Working None; EUpdate Compare Pass None])%list.
  split; [exact G|]. split; [exact Q|].
  split; [repeat rewrite <- app_assoc; reflexivity|].
  split; [rewrite execs_app, Xp; reflexivity|].
  split; [rewrite <- X; f_equal; repeat rewrite <- app_assoc; reflexivity|].
  exists before, ws, after. split; assumption.
Qed.

Lemma true_verdict_means_equal_digests_witness :
  exists info h out pre post,
    get_resp commit_env (trace example_world ++ [EUpdate Registry Working None])%list
             (registryUrl "pkg") = inl info
    /\ registryShasum (findVersionInfo commit_env info (resolveVersion commit_env info ""))
       = VStr h
    /\ verify_events commit_env "pkg" "" example_world
       = (pre ++ EExec "npm pack --dry-run" :: post)%list
    /\ execs post = []
    /\ exec_resp commit_env (trace example_world ++ pre) "npm pack --dry-run" = inl out
    /\ exists before ws after, shasum_at before ws h after out /\ leftmost before out.
Proof.
  exact (true_verdict_means_equal_digests commit_env "pkg" "" example_world eq_refl).
Defined.

Lemma verify_run_settled env packageName version w0 l b :
  verify_run env packageName version w0 l (Ok b) ->
  settled b (progress_after createProgress l) = true.
Proof. intros H. invert_runs; reflexivity. Qed.

(** X20: when [verify] returns, no step is left Working and the steps
    that were reached come before the ones still Pending; when it returns
    true every step is Pass, except that install may be Skipped; when it
    returns false exactly one step is Fail. *)
Theorem a_returned_run_is_settled
        (env : Env) (packageName version : string) (w : World) (b : bool) :
  fst (verify env packageName version w) = Ok b ->
  let p := progress (snd (verify env packageName version w)) in
  (forall j, status_of p j <> Working)
  /\ (forall i j, step_index i < step_index j ->
                  status_of p i = Pending -> status_of p j = Pending)
  /\ (if b
      then forall j, status_of p j = Pass \/ (j = Install /\ status_of p j = Skipped)
      else exists j, failed_steps p = [j]).
Proof.
  intros T p.
  destruct (verify_events_sound env packageName version w) as (o & V & R).
  subst p. rewrite V in T |- *. cbn [fst snd] in T |- *. subst o.
  rewrite progress_replay. cbn [reset_world progress].
  apply verify_run_settled in R.
  set (q := progress_after createProgress (verify_events env packageName version w)) in *.
  clearbody q. unfold settled in R.
  apply andb_true_iff in R as [R R3]. apply andb_true_iff in R as [R1 R2].
  rewrite forallb_forall in R1, R2.
  assert (I : forall j, In j all_steps) by (intros j; destruct j; simpl; tauto).
  split; [|split].
  - intros j E. specialize (R1 j (I j)). rewrite E in R1. discriminate.
  - intros i j L Pi. specialize (R2 i (I i)). rewrite forallb_forall in R2.
    specialize (R2 j (I j)). apply Nat.ltb_lt in L. rewrite L, Pi in R2.
    destruct (status_of q j); congruence.
  - destruct b.
    + rewrite forallb_forall in R3. intros j. specialize (R3 j (I j)).
      destruct j, (status_of q _); try discriminate R3; auto.
    + destruct (failed_steps q) as [|j [|? ?]]; try discriminate R3. eauto.
Qed.

Lemma a_returned_run_is_settled_witness :
  failed_steps (progress (snd (verify svn_env "pkg" "" example_world))) = [Repo]
  /\ exists j, failed_steps (progress (snd (verify svn_env "pkg" "" example_world))) = [j].
Proof.
  split; [reflexivity|].
  exact (proj2 (proj2 (a_returned_run_is_settled svn_env "pkg" "" example_world false
                                                 eq_refl))).
Defined.

Lemma registry_requests (env : Env) (packageName version : string) (w : World) :
  exists rest,
    trace (snd (registry env packageName version w))
    = (trace w ++ EUpdate Registry Working None :: EGet (registryUrl packageName) :: rest)%list
    /\ gets rest = [].
Proof.
  unfold registryUrl. run_unfold. run_simpl.
  repeat run_case; cbn [snd trace];
    match goal with
    | |- exists rest, ?T = _ /\ _ =>
        let l := events_of T in
        let l' := eval cbn [app] in l in
        lazymatch l' with
        | _ :: _ :: ?r => exists r
        end
    end;
    (split; [repeat rewrite <- app_assoc; reflexivity | reflexivity]).
Qed.

Lemma checkout_run_gets c0 g l o : checkout_run c0 g l o -> gets l = [].
Proof.
  destruct 1;
    repeat match goal with
           | H : _ \/ _ |- _ => destruct H
           | H : fetches _ |- _ => destruct H
           end; subst; reflexivity.
Qed.

Lemma pack_run_gets c0 d l o : pack_run c0 d l o -> gets l = [].
Proof. destruct 1; reflexivity. Qed.

Lemma compare_run_gets a b l : compare_run a b l -> gets l = [].
Proof. destruct 1; reflexivity. Qed.

Lemma gets_app (l1 l2 : list Event) : gets (l1 ++ l2) = (gets l1 ++ gets l2)%list.
Proof. apply flat_map_app. Qed.

(** X21: every run of [verify] makes exactly one request, to
    [https://registry.npmjs.com/{packageName}] (the name is appended as it
    is), and makes it before anything else than setting the registry step
    to Working. *)
Theorem verify_requests_the_registry_once
        (env : Env) (packageName version : string) (w : World) :
  gets (verify_events env packageName version w) = [registryUrl packageName]
  /\ exists rest,
      verify_events env packageName version w
      = EUpdate Registry Working None :: EGet (registryUrl packageName) :: rest.
Proof.
  destruct (verify_events_sound env packageName version w) as (o & _ & R).
  set (l := verify_events env packageName version w) in *. clearbody l.
  destruct (registry_requests env packageName version (reset_world w)) as (rest & T & Gr).
  assert (K : forall l1 o1,
             registry env packageName version (reset_world w)
             = (o1, replay l1 (reset_world w)) ->
             l1 = EUpdate Registry Working None :: EGet (registryUrl packageName) :: rest).
  { intros l1 o1 E. rewrite E in T. cbn [snd] in T. rewrite trace_replay in T.
    exact (app_inv_head _ _ _ T). }
  inversion R; subst;
    match goal with
    | E : registry _ _ _ _ = _ |- _ => rewrite (K _ _ E) in *
    end;
    repeat rewrite gets_app;
    repeat match goal with
           | C : checkout_run _ _ _ _ |- _ => rewrite (checkout_run_gets _ _ _ _ C); clear C
           | C : pack_run _ _ _ _ |- _ => rewrite (pack_run_gets _ _ _ _ C); clear C
           | C : compare_run _ _ _ |- _ => rewrite (compare_run_gets _ _ _ C); clear C
           end;
    cbn [gets flat_map app]; rewrite ?app_nil_r; fold (gets rest); rewrite Gr;
    (split; [reflexivity | eexists; reflexivity]).
Qed.
